(** * MetadataManager: the metadata synchronisation engine of meta-bind

  A shallow embedding of [src/MetadataManager.ts].  JavaScript values live
  in an explicit store of objects, so that reference identity ([===] on
  objects and arrays) and in-place mutation ([parent.value[key] = value])
  are what they are in the source.  The cache entries are objects of a
  second store, reached through the references the [cache] array holds.
  The manager is a record threaded through every operation; the one
  operation that can throw returns an outcome together with the state it
  leaves behind.

  What the embedding leaves out: a listener's callback is a handle, and
  calling it appends to a trace; the callback itself is taken to return
  normally and not to call back into the manager.  Objects have their own
  data properties only: inherited properties and the [length] of arrays are
  not modelled. *)

From Stdlib Require Import ZArith Ascii Floats.PrimFloat.
From stdpp Require Import gmap strings list fin_maps.

Local Open Scope string_scope.
Local Open Scope list_scope.

(** ** JavaScript values *)

Module JS.

Definition loc := nat.

(** A value is a primitive or a reference to an object of the store.
    Numbers are IEEE doubles, as in JavaScript. *)
Inductive value :=
  | VUndef
  | VNull
  | VBool (b : bool)
  | VNum (f : float)
  | VStr (s : string)
  | VRef (l : loc).

Inductive Kind := Mapping | Sequence.

(** An object of the store: its own data properties, keyed by property
    name (an array has its indices as keys; holes are absent keys). *)
Record Obj := mkObj { kind : Kind; props : gmap string value }.

(** [a === b]: primitives by value (IEEE equality on numbers, so that
    [NaN === NaN] is false), objects by reference. *)
Definition strict_eq (a b : value) : bool :=
  match a, b with
  | VUndef, VUndef => true
  | VNull, VNull => true
  | VBool x, VBool y => Bool.eqb x y
  | VNum x, VNum y => PrimFloat.eqb x y
  | VStr x, VStr y => bool_decide (x = y)
  | VRef x, VRef y => bool_decide (x = y)
  | _, _ => false
  end.

(** [o[k]], read: own properties of an object of the store; reading a
    property of anything else yields [undefined]. *)
Definition get_prop (h : gmap loc Obj) (o : value) (k : string) : value :=
  match o with
  | VRef l =>
      match h !! l with
      | Some ob => default VUndef (props ob !! k)
      | None => VUndef
      end
  | _ => VUndef
  end.

(** [o[k] = v], write: the object is mutated in place.  [None] stands for
    the TypeError of an assignment to a property of [undefined], [null] or
    (strict mode) a primitive.  The write is that of an own data property:
    it is what JavaScript does for every key but the two it treats
    specially, [__proto__] (an inherited setter) and the [length] of an
    array; what is proved of the value written is proved for the other keys
    (see [ordinary_key]). *)
Definition set_prop (h : gmap loc Obj) (o : value) (k : string) (v : value)
  : option (gmap loc Obj) :=
  match o with
  | VRef l =>
      match h !! l with
      | Some ob => Some (<[l := mkObj (kind ob) (<[k := v]> (props ob))]> h)
      | None => None
      end
  | _ => None
  end.

(** [{}] *)
Definition empty_object : Obj := mkObj Mapping ∅.

(** The address of a newly created object. *)
Definition fresh_loc (h : gmap loc Obj) : loc := fresh (dom h).

(** [x += 1] on a number that only ever takes the values reached from 0 by
    adding 1: exact below 2^53, absorbed at 2^53 (round to even). *)
Definition incr (x : Z) : Z := if (x <? 2 ^ 53)%Z then (x + 1)%Z else x.

(** Truthiness of an optional string: [undefined] and [""] are falsy. *)
Definition truthy (s : option string) : bool :=
  match s with
  | Some x => negb (bool_decide (x = ""))
  | None => false
  end.

End JS.

(** ** Path utilities *)

(** Modelled from the spec: [traverseObjectByPath] of opd-utils-lib
    (ObjectTraversalUtils), the spec's [get(data, path)]: traverses segment
    by segment; a segment that does not exist yields [undefined], the
    sentinel the manager tests. *)
Definition traverseObjectByPath (h : gmap JS.loc JS.Obj) (pathParts : list string)
  (o : JS.value) : JS.value :=
  foldl (JS.get_prop h) o pathParts.

Record ParentAndChild := mkParentAndChild {
  parent_value : JS.value;
  child_key : string;
  child_value : JS.value }.

(** Modelled from the spec: [traverseObjectToParentByPath] of utils/Utils,
    the spec's [locateParent(data, path)]: the node reached by all segments
    but the last ([undefined] when it does not exist), the final key, and the
    value presently under that key.  The spec's paths are non-empty; the
    final key of an empty path is taken to be the empty string. *)
Definition traverseObjectToParentByPath (h : gmap JS.loc JS.Obj)
  (pathParts : list string) (o : JS.value) : ParentAndChild :=
  let parentObject := traverseObjectByPath h (removelast pathParts) o in
  let childKey := List.last pathParts "" in
  mkParentAndChild parentObject childKey (JS.get_prop h parentObject childKey).

(** Modelled from the spec: [arrayEquals] of utils/Utils, equality of two
    paths, segment by segment. *)
Definition arrayEquals (a b : list string) : bool := bool_decide (a = b).

(** ** The manager *)

(** A listener; the callback is named by a handle, and calling it is
    recorded in the manager's trace of calls. *)
Record Listener := mkListener {
  onCacheUpdate : nat;
  metadataPath : list string;
  uuid : string }.

(** [file] is [file.path], the only part of a [TFile] the manager reads. *)
Record MetadataFileCache := mkFileCache {
  file : string;
  metadata : JS.loc;
  listeners : list Listener;
  cyclesSinceLastUpdate : Z;
  changed : bool }.

(** The manager and the world it acts on.  Cache entries are objects too:
    [entries] is their store, [cache] the array of references to them, so
    that the entry captured by a pending read stays reachable after it left
    the array.  [pendingReads] and [pendingWrites] are the promises of the
    persistence layer that have not settled yet; [calls] is the trace of
    listener callbacks invoked so far. *)
Record MetadataManager := mkManager {
  cache : list nat;
  entries : gmap nat MetadataFileCache;
  objects : gmap JS.loc JS.Obj;
  pendingReads : list (nat * string);
  pendingWrites : list (string * JS.loc);
  calls : list (nat * JS.value) }.

Definition updateCycleThreshold : Z := 5.

Inductive Error :=
  | MissingParent (pathParts : list string)
  | TypeError.

Inductive Outcome :=
  | Normal
  | Throw (e : Error).

(** Field updates. *)
Definition set_listeners (ls : list Listener) (fc : MetadataFileCache) :=
  mkFileCache (file fc) (metadata fc) ls (cyclesSinceLastUpdate fc) (changed fc).
Definition set_metadata (m : JS.loc) (fc : MetadataFileCache) :=
  mkFileCache (file fc) m (listeners fc) (cyclesSinceLastUpdate fc) (changed fc).
Definition set_cycles (n : Z) (fc : MetadataFileCache) :=
  mkFileCache (file fc) (metadata fc) (listeners fc) n (changed fc).
Definition set_changed (b : bool) (fc : MetadataFileCache) :=
  mkFileCache (file fc) (metadata fc) (listeners fc) (cyclesSinceLastUpdate fc) b.

Definition with_cache (c : list nat) (st : MetadataManager) :=
  mkManager c (entries st) (objects st) (pendingReads st) (pendingWrites st) (calls st).
Definition with_entries (E : gmap nat MetadataFileCache) (st : MetadataManager) :=
  mkManager (cache st) E (objects st) (pendingReads st) (pendingWrites st) (calls st).
Definition with_objects (h : gmap JS.loc JS.Obj) (st : MetadataManager) :=
  mkManager (cache st) (entries st) h (pendingReads st) (pendingWrites st) (calls st).
Definition with_pendingReads (r : list (nat * string)) (st : MetadataManager) :=
  mkManager (cache st) (entries st) (objects st) r (pendingWrites st) (calls st).
Definition with_pendingWrites (w : list (string * JS.loc)) (st : MetadataManager) :=
  mkManager (cache st) (entries st) (objects st) (pendingReads st) w (calls st).
Definition with_calls (c : list (nat * JS.value)) (st : MetadataManager) :=
  mkManager (cache st) (entries st) (objects st) (pendingReads st) (pendingWrites st) c.

(** [new MetadataManager(plugin)] *)
Definition constructor : MetadataManager := mkManager [] ∅ ∅ [] [] [].


(** ** Operations *)

(** [this.cache.find(x => x.file.path === file.path)]: the reference to the
    first matching entry, with the entry it presently denotes. *)
Fixpoint find_file (E : gmap nat MetadataFileCache) (path : string) (c : list nat)
  : option (nat * MetadataFileCache) :=
  match c with
  | [] => None
  | x :: r =>
      match E !! x with
      | Some fc => if bool_decide (file fc = path) then Some (x, fc) else find_file E path r
      | None => find_file E path r
      end
  end.

Definition getCacheForFile (path : string) (st : MetadataManager)
  : option (nat * MetadataFileCache) :=
  find_file (entries st) path (cache st).

(** [listener.onCacheUpdate(v)] *)
Definition call (listener : Listener) (v : JS.value) (st : MetadataManager) :=
  with_calls (calls st ++ [(onCacheUpdate listener, v)]) st.

(** One turn of the loop of [notifyListeners]. *)
Definition notifyListener (fc : MetadataFileCache) (path : option (list string))
  (exceptUuid : option string) (value : JS.value)
  (st : MetadataManager) (listener : Listener) : MetadataManager :=
  if JS.truthy exceptUuid && bool_decide (exceptUuid = Some (uuid listener)) then st
  else
    match path with
    | Some p =>
        if arrayEquals p (metadataPath listener) then call listener value st else st
    | None =>
        call listener
          (traverseObjectByPath (objects st) (metadataPath listener) (JS.VRef (metadata fc)))
          st
    end.

Definition notifyListeners (fileCache : nat) (path : option (list string))
  (exceptUuid : option string) (st : MetadataManager) : MetadataManager :=
  match entries st !! fileCache with
  | Some fc =>
      let value :=
        match path with
        | Some p => traverseObjectByPath (objects st) p (JS.VRef (metadata fc))
        | None => JS.VUndef
        end in
      foldl (notifyListener fc path exceptUuid value) st (listeners fc)
  | None => st
  end.

(** [register]: returns the reference to the entry. *)
Definition register (path : string) (onCacheUpdate : nat) (metadataPath : list string)
  (uuid : string) (st : MetadataManager) : nat * MetadataManager :=
  let listener := mkListener onCacheUpdate metadataPath uuid in
  match getCacheForFile path st with
  | Some (fileCache, fc) =>
      (fileCache,
       with_entries (<[fileCache := set_listeners (listeners fc ++ [listener]) fc]> (entries st)) st)
  | None =>
      let m := JS.fresh_loc (objects st) in
      let c := fresh (dom (entries st)) in
      (c,
       with_cache (cache st ++ [c])
         (with_pendingReads (pendingReads st ++ [(c, path)])
            (with_entries (<[c := mkFileCache path m [listener] 0 false]> (entries st))
               (with_objects (<[m := JS.empty_object]> (objects st)) st))))
  end.

(** Is the entry behind reference [x] one for [path]? *)
Definition has_path (E : gmap nat MetadataFileCache) (path : string) (x : nat) : bool :=
  match E !! x with
  | Some fc => bool_decide (file fc = path)
  | None => false
  end.

Definition unregister (path : string) (id : string) (st : MetadataManager)
  : MetadataManager :=
  match getCacheForFile path st with
  | None => st
  | Some (fileCache, fc) =>
      let ls := List.filter (fun x => negb (bool_decide (uuid x = id))) (listeners fc) in
      let st1 := with_entries (<[fileCache := set_listeners ls fc]> (entries st)) st in
      if bool_decide (length ls = 0%nat)
      then with_cache (List.filter (fun x => negb (has_path (entries st1) path x)) (cache st1)) st1
      else st1
  end.

(** [updateFrontmatter], up to its [await]: the flag is cleared, then the
    write is handed to the persistence layer. *)
Definition updateFrontmatter (fileCache : nat) (st : MetadataManager) : MetadataManager :=
  match entries st !! fileCache with
  | Some fc =>
      with_pendingWrites (pendingWrites st ++ [(file fc, metadata fc)])
        (with_entries (<[fileCache := set_changed false fc]> (entries st)) st)
  | None => st
  end.

(** The body of the loop of [update]. *)
Definition update_entry (st : MetadataManager) (fileCache : nat) : MetadataManager :=
  match entries st !! fileCache with
  | Some fc =>
      let st1 := if changed fc then updateFrontmatter fileCache st else st in
      with_entries
        (alter (fun c => set_cycles (JS.incr (cyclesSinceLastUpdate c)) c) fileCache (entries st1))
        st1
  | None => st
  end.

(** [update], the periodic tick. *)
Definition update (st : MetadataManager) : MetadataManager :=
  foldl update_entry st (cache st).

(** [updateMetadataFileCache]: the whole data is replaced by [metadata]. *)
Definition updateMetadataFileCache (metadata : JS.loc) (path : string)
  (uuid : option string) (st : MetadataManager) : MetadataManager :=
  match getCacheForFile path st with
  | None => st
  | Some (fileCache, fc) =>
      notifyListeners fileCache None uuid
        (with_entries (<[fileCache := set_cycles 0 (set_metadata metadata fc)]> (entries st)) st)
  end.

Definition updatePropertyInMetadataFileCache (value : JS.value) (pathParts : list string)
  (path : string) (uuid : option string) (st : MetadataManager)
  : Outcome * MetadataManager :=
  match getCacheForFile path st with
  | None => (Normal, st)
  | Some (fileCache, fc) =>
      let pc := traverseObjectToParentByPath (objects st) pathParts (JS.VRef (metadata fc)) in
      if JS.strict_eq (parent_value pc) JS.VUndef
      then (Throw (MissingParent pathParts), st)
      else if JS.strict_eq (child_value pc) value
      then (Normal, st)
      else
        match JS.set_prop (objects st) (parent_value pc) (child_key pc) value with
        | None => (Throw TypeError, st)
        | Some h =>
            (Normal,
             notifyListeners fileCache (Some pathParts) uuid
               (with_entries
                  (<[fileCache := set_changed true (set_cycles 0 fc)]> (entries st))
                  (with_objects h st)))
        end
  end.

(** [Object.assign({}, frontmatter)] followed by [delete metadata.position]:
    the own properties of the snapshot, but [position], in a new object. *)
Definition copy_frontmatter (h : gmap JS.loc JS.Obj) (frontmatter : option JS.loc) : JS.Obj :=
  match frontmatter with
  | Some l =>
      match h !! l with
      | Some ob => JS.mkObj JS.Mapping (delete "position" (JS.props ob))
      | None => JS.empty_object
      end
  | None => JS.empty_object
  end.

(** The handler of the metadata cache's [changed] event; [frontmatter] is
    [cache.frontmatter]. *)
Definition updateMetadataFileCacheOnFrontmatterUpdate (path : string)
  (frontmatter : option JS.loc) (st : MetadataManager) : MetadataManager :=
  match getCacheForFile path st with
  | None => st
  | Some (fileCache, fc) =>
      if (cyclesSinceLastUpdate fc <? updateCycleThreshold)%Z then st
      else
        let m := JS.fresh_loc (objects st) in
        notifyListeners fileCache None None
          (with_entries
             (<[fileCache := set_changed true (set_cycles 0 (set_metadata m fc))]> (entries st))
             (with_objects (<[m := copy_frontmatter (objects st) frontmatter]> (objects st)) st))
  end.

(** ** Settling of the persistence layer's promises *)

Fixpoint remove_first {A} `{EqDecision A} (a : A) (l : list A) : list A :=
  match l with
  | [] => []
  | x :: r => if decide (x = a) then r else x :: remove_first a r
  end.

(** The [then] callback of [cachedRead(file)] in [register], for the entry
    [c] it captured; [parsed] is [getMetaDataFromFileContent(value)], absent
    when it is [undefined] or [null]. *)
Definition cachedRead_resolved (c : nat) (path : string) (parsed : option JS.loc)
  (st : MetadataManager) : MetadataManager :=
  let st0 := with_pendingReads (remove_first (c, path) (pendingReads st)) st in
  match entries st0 !! c with
  | Some fc =>
      let m := default (JS.fresh_loc (objects st0)) parsed in
      let h := match parsed with
               | Some _ => objects st0
               | None => <[m := JS.empty_object]> (objects st0)
               end in
      notifyListeners c None None
        (with_entries (<[c := set_metadata m fc]> (entries st0)) (with_objects h st0))
  | None => st0
  end.

(** [cachedRead(file)] is rejected: the promise has no rejection handler,
    the [then] callback does not run. *)
Definition cachedRead_rejected (c : nat) (path : string) (st : MetadataManager)
  : MetadataManager :=
  with_pendingReads (remove_first (c, path) (pendingReads st)) st.

(** [setFrontmatterOfTFile] settles, fulfilled or rejected: nothing follows
    the [await] in [updateFrontmatter], and [update] drops the promise. *)
Definition setFrontmatter_settled (w : string * JS.loc) (fulfilled : bool)
  (st : MetadataManager) : MetadataManager :=
  with_pendingWrites (remove_first w (pendingWrites st)) st.

(** ** Deep structural equality *)

Definition kind_eqb (a b : JS.Kind) : bool :=
  match a, b with
  | JS.Mapping, JS.Mapping | JS.Sequence, JS.Sequence => true
  | _, _ => false
  end.

(** Following the spec's words ("deep structural equality over the
    Structured Value model: recursively compares mappings, sequences, and
    scalars"): two containers are equal when they are of the same kind, have
    the same keys and hold deep-equal values under every key; scalars are
    compared by value.  [fuel] bounds the nesting depth explored. *)
Fixpoint deep_equal (fuel : nat) (h : gmap JS.loc JS.Obj) (a b : JS.value) : bool :=
  match a, b with
  | JS.VRef x, JS.VRef y =>
      match fuel with
      | O => false
      | S n =>
          match h !! x, h !! y with
          | Some oa, Some ob =>
              kind_eqb (JS.kind oa) (JS.kind ob)
              && bool_decide (dom (JS.props oa) = dom (JS.props ob))
              && forallb (fun kv => deep_equal n h kv.2 (JS.get_prop h (JS.VRef y) kv.1))
                   (map_to_list (JS.props oa))
          | _, _ => false
          end
      end
  | _, _ => JS.strict_eq a b
  end.

(** ** What the operations do to the state: auxiliary notions *)


(** The calls one listener receives from [notifyListeners]. *)
Definition notification (h : gmap JS.loc JS.Obj) (fc : MetadataFileCache)
  (path : option (list string)) (exceptUuid : option string) (value : JS.value)
  (listener : Listener) : list (nat * JS.value) :=
  if JS.truthy exceptUuid && bool_decide (exceptUuid = Some (uuid listener)) then []
  else
    match path with
    | Some p =>
        if arrayEquals p (metadataPath listener) then [(onCacheUpdate listener, value)] else []
    | None =>
        [(onCacheUpdate listener,
          traverseObjectByPath h (metadataPath listener) (JS.VRef (metadata fc)))]
    end.

(** The listeners the spec has notified of an update at [pathParts] made by
    [originId]: those bound to that path whose id differs from [originId]. *)
Definition recipient (pathParts : list string) (originId : option string)
  (listener : Listener) : Prop :=
  pathParts = metadataPath listener ∧ Some (uuid listener) ≠ originId.

#[global] Instance recipient_dec pathParts originId listener :
  Decision (recipient pathParts originId listener).
Proof. unfold recipient. apply _. Defined.


(** The listeners a notification does not skip: all of them when the
    [uuid] passed along is absent or the empty string, otherwise those
    registered under another id. *)
Definition kept (originId : option string) (listener : Listener) : Prop :=
  originId = None ∨ originId = Some "" ∨ originId ≠ Some (uuid listener).

#[global] Instance kept_dec originId listener : Decision (kept originId listener).
Proof. unfold kept. apply _. Defined.

(** The listeners the code notifies of an update at [pathParts]: those
    bound to that path that are not skipped. *)
Definition notified (pathParts : list string) (originId : option string)
  (listener : Listener) : Prop :=
  pathParts = metadataPath listener ∧ kept originId listener.

#[global] Instance notified_dec pathParts originId listener :
  Decision (notified pathParts originId listener).
Proof. unfold notified. apply _. Defined.

(** What a tick does to one entry. *)
Definition tick_entry (fc : MetadataFileCache) : MetadataFileCache :=
  set_cycles (JS.incr (cyclesSinceLastUpdate fc)) (set_changed false fc).

(** The write a tick issues for the entry behind [x], if it is dirty. *)
Definition dirty_write (E : gmap nat MetadataFileCache) (x : nat)
  : option (string * JS.loc) :=
  match E !! x with
  | Some fc => if changed fc then Some (file fc, metadata fc) else None
  | None => None
  end.

(** A run of [register] calls for one document; the references returned. *)
Fixpoint registerAll (path : string) (rs : list Listener) (st : MetadataManager)
  : list nat * MetadataManager :=
  match rs with
  | [] => ([], st)
  | r :: rs' =>
      let '(c, st1) := register path (onCacheUpdate r) (metadataPath r) (uuid r) st in
      let '(cs, st2) := registerAll path rs' st1 in
      (c :: cs, st2)
  end.

(** Well-formed managers: the [cache] array holds each entry once, and only
    references to entries that exist. *)
Definition wf (st : MetadataManager) : Prop :=
  NoDup (cache st) ∧ ∀ x, x ∈ cache st → is_Some (entries st !! x).

(** What can happen to a manager: a call of one of its methods, a tick, an
    event of the metadata cache, the settling of a promise, or the creation
    of an object by the code around it (the parser, an input field). *)
Inductive step : MetadataManager → MetadataManager → Prop :=
  | step_register path cb mp id st :
      step st (register path cb mp id st).2
  | step_unregister path id st :
      step st (unregister path id st)
  | step_update st :
      step st (update st)
  | step_updateMetadataFileCache metadata path id st :
      step st (updateMetadataFileCache metadata path id st)
  | step_updateProperty value pathParts path id st :
      step st (updatePropertyInMetadataFileCache value pathParts path id st).2
  | step_frontmatter path frontmatter st :
      step st (updateMetadataFileCacheOnFrontmatterUpdate path frontmatter st)
  | step_read_resolved c path parsed st :
      step st (cachedRead_resolved c path parsed st)
  | step_read_rejected c path st :
      step st (cachedRead_rejected c path st)
  | step_write_settled w fulfilled st :
      step st (setFrontmatter_settled w fulfilled st)
  | step_environment l ob st :
      objects st !! l = None →
      step st (with_objects (<[l := ob]> (objects st)) st).

(** The states a manager can be in. *)
Definition reachable (st : MetadataManager) : Prop := rtc step constructor st.

(** ** A document and its listeners *)

Module Scenario.

(** The objects made outside the manager: the data [{a: {b: 1}, tags: ["x"]}]
    parsed from the document, at 1, 2 and 3; at 4 an array equal to the one
    at 3, but another object; at 5, 6 and 7 a snapshot
    [{a: {b: 9}, position: {}}] of the external store. *)
Definition store : gmap JS.loc JS.Obj :=
  <[1%nat := JS.mkObj JS.Mapping (<["a" := JS.VRef 2]> {["tags" := JS.VRef 3]})]>
  (<[2%nat := JS.mkObj JS.Mapping {["b" := JS.VNum 1]}]>
  (<[3%nat := JS.mkObj JS.Sequence {["0" := JS.VStr "x"]}]>
  (<[4%nat := JS.mkObj JS.Sequence {["0" := JS.VStr "x"]}]>
  (<[5%nat := JS.mkObj JS.Mapping (<["a" := JS.VRef 6]> {["position" := JS.VRef 7]})]>
  (<[6%nat := JS.mkObj JS.Mapping {["b" := JS.VNum 9]}]>
  {[7%nat := JS.empty_object]}))))).

Definition L1 : Listener := mkListener 1 ["a"; "b"] "L1".
Definition L2 : Listener := mkListener 2 ["a"; "b"] "L2".
Definition L3 : Listener := mkListener 3 ["tags"] "L3".

(** A listener registered under the empty id. *)
Definition L0 : Listener := mkListener 9 ["a"; "b"] "".

(** The entry of document [F.md], once loaded. *)
Definition entry (ls : list Listener) (cycles : Z) (dirty : bool) : MetadataFileCache :=
  mkFileCache "F.md" 1 ls cycles dirty.

(** The listeners [ls] register for [F.md], and the read resolves. *)
Definition loaded (ls : list Listener) : MetadataManager :=
  cachedRead_resolved 0 "F.md" (Some 1%nat)
    (registerAll "F.md" ls (with_objects store constructor)).2.

(** Just loaded. *)
Definition recent : MetadataManager := loaded [L1; L2; L3].

(** Five ticks later. *)
Definition aged : MetadataManager := Nat.iter 5 update recent.

(** [L1] has set [a.b] to 2: dirty, nothing in flight. *)
Definition dirty : MetadataManager :=
  (updatePropertyInMetadataFileCache (JS.VNum 2) ["a"; "b"] "F.md" (Some "L1") recent).2.

(** A tick has issued the write, which has not settled when [L1] sets
    [a.b] to 3: dirty, with the previous write in flight. *)
Definition dirty_in_flight : MetadataManager :=
  (updatePropertyInMetadataFileCache (JS.VNum 3) ["a"; "b"] "F.md" (Some "L1")
     (update dirty)).2.

(** One listener only. *)
Definition single : MetadataManager := loaded [L3].

(** A listener with the empty id among the listeners. *)
Definition anonymous : MetadataManager := loaded [L0; L2].

End Scenario.

(** ** What every reachable manager satisfies *)

(** The documents of the cache, in the order of the array. *)
Definition cache_paths (st : MetadataManager) : list string :=
  omap (fun x => file <$> entries st !! x) (cache st).

(** The manager is well-formed, no two entries of its cache are for the
    same document, every entry of the cache has a listener, and every
    counter is one of the values a counter can take. *)
Definition inv (st : MetadataManager) : Prop :=
  wf st
  ∧ NoDup (cache_paths st)
  ∧ ∀ x fc, x ∈ cache st → entries st !! x = Some fc →
      listeners fc ≠ [] ∧ (0 ≤ cyclesSinceLastUpdate fc ≤ 2 ^ 53)%Z.

(** ** The input field's queue: [src/InputFieldMarkdownRenderChild.ts], first version *)

Module ValueQueue.

(** The fields of [InputFieldMarkdownRenderChild] that [updateMetaData] and
    [incrementInterval] read and write, and [written], the calls of
    [plugin.updateMetaData(field, value, file)] made so far, in order. *)
Record RenderChild := mkRenderChild {
  isBound : bool;
  bindTargetMetadataField : string;
  file : string;
  valueQueue : list JS.value;
  written : list (string * JS.value * string) }.

Definition with_queue (q : list JS.value) (rc : RenderChild) : RenderChild :=
  mkRenderChild (isBound rc) (bindTargetMetadataField rc) (file rc) q (written rc).

(** [updateMetaData(value)] *)
Definition updateMetaData (value : JS.value) (rc : RenderChild) : RenderChild :=
  if isBound rc then with_queue (valueQueue rc ++ [value]) rc else rc.

(** [incrementInterval], up to its [await]: the last value of the queue is
    handed to the plugin.  The boolean tells whether the function is now
    suspended in the [await]. *)
Definition incrementInterval (rc : RenderChild) : bool * RenderChild :=
  match List.last (map Some (valueQueue rc)) None with
  | Some v =>
      (true,
       mkRenderChild (isBound rc) (bindTargetMetadataField rc) (file rc) (valueQueue rc)
         (written rc ++ [(bindTargetMetadataField rc, v, file rc)]))
  | None => (false, rc)
  end.

(** [incrementInterval], after its [await]: when the plugin's promise is
    fulfilled the queue is emptied; when it is rejected the function is
    left at once. *)
Definition incrementInterval_resumed (fulfilled : bool) (rc : RenderChild) : RenderChild :=
  if fulfilled then with_queue [] rc else rc.

(** A burst of [updateMetaData] calls. *)
Definition updateAll (values : list JS.value) (rc : RenderChild) : RenderChild :=
  foldl (fun rc v => updateMetaData v rc) rc values.

End ValueQueue.

(** ** The bind target: [src/InputFieldMarkdownRenderChild.ts], second version *)

Module BindTarget.

(** [s.split(c)] for a separator [c] of one ASCII character: the pieces
    between the occurrences of [c]; never empty.  (A string is its UTF-8
    bytes here; an ASCII byte occurs in them only as that character.) *)
Fixpoint split (c : Ascii.ascii) (s : string) : list string :=
  match s with
  | EmptyString => [EmptyString]
  | String a r =>
      if Ascii.eqb a c then EmptyString :: split c r
      else
        match split c r with
        | h :: t => String a h :: t
        | [] => [String a EmptyString]
        end
  end.

(** The number of occurrences of [c] in [s]. *)
Fixpoint occurrences (c : Ascii.ascii) (s : string) : nat :=
  match s with
  | EmptyString => 0
  | String a r => (if Ascii.eqb a c then 1 else 0) + occurrences c r
  end.

Inductive BindTargetError :=
  | InternalError
  | TooManyHashes
  | PathError (message : string)
  | FileNotFound
  | MultipleFiles.

(** What [validateObjectPath] does with a path. *)
Inductive Validation :=
  | Valid
  | ThrowsError (message : string)
  | ThrowsOther.

(** The fields [parseBindTarget] writes. *)
Record Target := mkTarget {
  bindTargetFile : option string;
  bindTargetMetadataField : option string }.

Section parseBindTarget.

(** [validateObjectPath] of opd-metadata-lib and [plugin.getFilesByName] are
    not part of this code: the function is modelled for any two of them. *)
Variable validateObjectPath : string → Validation.
Variable getFilesByName : string → list string.

(** [parseBindTarget]: [declaration] is [inputFieldDeclaration?.bindTarget],
    [filePath] the path of the note that holds the field.  A thrown error
    leaves the fields as they were assigned up to the throw. *)
Definition parseBindTarget (declaration : option string) (filePath : string)
  (t : Target) : option BindTargetError * Target :=
  match declaration with
  | None => (Some InternalError, t)
  | Some bindTarget =>
      let names :=
        match split "#"%char bindTarget with
        | [_] => Some (filePath, bindTarget)
        | [fileName; fieldName] => Some (fileName, fieldName)
        | _ => None
        end in
      match names with
      | None => (Some TooManyHashes, t)
      | Some (bindTargetFileName, bindTargetMetadataFieldName) =>
          match validateObjectPath bindTargetMetadataFieldName with
          | ThrowsError message => (Some (PathError message), t)
          | _ =>
              let t1 := mkTarget (bindTargetFile t) (Some bindTargetMetadataFieldName) in
              match getFilesByName bindTargetFileName with
              | [] => (Some FileNotFound, t1)
              | [f] => (None, mkTarget (Some f) (Some bindTargetMetadataFieldName))
              | _ => (Some MultipleFiles, t1)
              end
          end
      end
  end.

End parseBindTarget.

End BindTarget.

(** * Properties *)

(** ** Records *)

Lemma with_calls_id st : with_calls (calls st) st = st.
Proof. by destruct st. Qed.

Lemma with_calls_nil st : with_calls (calls st ++ []) st = st.
Proof. rewrite app_nil_r. apply with_calls_id. Qed.

Lemma tick_entry_file fc : file (tick_entry fc) = file fc.
Proof. done. Qed.

(** ** [getCacheForFile] *)

Lemma find_file_Some E path c x fc :
  find_file E path c = Some (x, fc) → E !! x = Some fc ∧ file fc = path ∧ x ∈ c.
Proof.
  induction c as [|y r IH]; simpl; [done|].
  destruct (E !! y) as [fy|] eqn:Hy.
  - case_bool_decide as Hf.
    + intros [= -> ->]. split_and!; [done..|]. apply list_elem_of_here.
    + intros H. destruct (IH H) as (?&?&?). split_and!; [done..|]. by apply list_elem_of_further.
  - intros H. destruct (IH H) as (?&?&?). split_and!; [done..|]. by apply list_elem_of_further.
Qed.

Lemma find_file_None E path c x fc :
  find_file E path c = None → x ∈ c → E !! x = Some fc → file fc ≠ path.
Proof.
  induction c as [|y r IH]; simpl; [by intros _ ?%elem_of_nil|].
  intros Hf [->|Hin]%elem_of_cons Hx.
  - rewrite Hx in Hf. by case_bool_decide.
  - apply IH; [|done..]. destruct (E !! y); [by case_bool_decide|done].
Qed.

(** The entries may change, as long as each keeps its file: the same
    reference is found, with the changed entry. *)
Lemma find_file_fmap (f : MetadataFileCache → MetadataFileCache) E E' path c :
  (∀ fc, file (f fc) = file fc) →
  (∀ x, x ∈ c → E' !! x = f <$> E !! x) →
  find_file E' path c = prod_map id f <$> find_file E path c.
Proof.
  intros Hf. induction c as [|y r IH]; simpl; [done|]. intros HE.
  rewrite (HE y); [|apply list_elem_of_here].
  assert (find_file E' path r = prod_map id f <$> find_file E path r) as IH'.
  { apply IH. intros x Hx. apply HE. by apply list_elem_of_further. }
  destruct (E !! y) as [fy|]; simpl; [|done].
  rewrite Hf. by case_bool_decide.
Qed.

(** Writing to the entry that was found. *)
Lemma find_file_insert E path c x fc fc' :
  find_file E path c = Some (x, fc) → file fc' = path →
  find_file (<[x := fc']> E) path c = Some (x, fc').
Proof.
  intros Hfind Hfile. induction c as [|y r IH]; simpl in *; [done|].
  destruct (decide (y = x)) as [->|Hne].
  - rewrite lookup_insert_eq. by rewrite bool_decide_eq_true_2.
  - rewrite lookup_insert_ne; [|done].
    destruct (E !! y) as [fy|]; [|by apply IH].
    case_bool_decide; [|by apply IH]. by simplify_eq.
Qed.

(** ** [notifyListeners] *)

Lemma notifyListener_calls fc path exceptUuid value st listener :
  notifyListener fc path exceptUuid value st listener
  = with_calls (calls st ++ notification (objects st) fc path exceptUuid value listener) st.
Proof.
  unfold notifyListener, notification.
  destruct (JS.truthy exceptUuid && _); [by rewrite with_calls_nil|].
  destruct path as [p|]; [|done].
  destruct (arrayEquals p _); [done|by rewrite with_calls_nil].
Qed.

Lemma notify_loop_calls fc path exceptUuid value ls st :
  foldl (notifyListener fc path exceptUuid value) st ls
  = with_calls
      (calls st ++ flat_map (notification (objects st) fc path exceptUuid value) ls) st.
Proof.
  revert st. induction ls as [|l ls IH]; intros st; simpl.
  - by rewrite with_calls_nil.
  - rewrite IH, notifyListener_calls. destruct st; simpl. by rewrite <- app_assoc.
Qed.

(** Without a path and without an exception every listener is called, in
    registration order, with the value at its own path. *)
Lemma notifyListeners_all fileCache fc st :
  entries st !! fileCache = Some fc →
  notifyListeners fileCache None None st
  = with_calls
      (calls st
       ++ map (fun l => (onCacheUpdate l,
                          traverseObjectByPath (objects st) (metadataPath l)
                            (JS.VRef (metadata fc))))
            (listeners fc)) st.
Proof.
  intros HE. unfold notifyListeners. rewrite HE, notify_loop_calls.
  (* a one-call notification per listener: the loop is a [map] *)
  reflexivity.
Qed.

(** With a path and a non-empty (or absent) origin, the listeners called
    are the [recipient]s; all receive the value found at the path. *)
Lemma notifyListeners_path fileCache fc pathParts originId st :
  entries st !! fileCache = Some fc →
  originId ≠ Some "" →
  notifyListeners fileCache (Some pathParts) originId st
  = with_calls
      (calls st
       ++ map (fun l => (onCacheUpdate l,
                          traverseObjectByPath (objects st) pathParts (JS.VRef (metadata fc))))
            (filter (recipient pathParts originId) (listeners fc))) st.
Proof.
  intros HE Horigin. unfold notifyListeners. rewrite HE, notify_loop_calls. do 2 f_equal.
  induction (listeners fc) as [|l ls IH]; simpl; [done|].
  rewrite IH, filter_cons. unfold notification at 1, recipient at 2, arrayEquals.
  destruct originId as [o|]; simpl.
  - assert (o ≠ "") as Ho by congruence.
    rewrite (bool_decide_eq_false_2 (o = "")) by done. simpl.
    case_bool_decide as Hu.
    + rewrite decide_False; [done|]. intros [_ Hr]. by apply Hr.
    + case_bool_decide as Hp.
      * rewrite decide_True; [done|]. split; [done|]. congruence.
      * rewrite decide_False; [done|]. by intros [? _].
  - case_bool_decide as Hp.
    + rewrite decide_True; done.
    + rewrite decide_False; [done|]. by intros [? _].
Qed.

(** A listener is skipped exactly when it is not [kept]. *)
Lemma skipped_not_kept originId listener :
  JS.truthy originId && bool_decide (originId = Some (uuid listener))
  = negb (bool_decide (kept originId listener)).
Proof.
  destruct (decide (kept originId listener)) as [Hk|Hk];
    [rewrite (bool_decide_eq_true_2 _ Hk)|rewrite (bool_decide_eq_false_2 _ Hk)];
    unfold kept in Hk; destruct originId as [o|]; simpl.
  - case_bool_decide as Ho; [done|]. simpl. case_bool_decide as Hu; [|done].
    destruct Hk as [?|[?|?]]; congruence.
  - done.
  - case_bool_decide as Ho; simpl; [destruct Hk; right; left; congruence|].
    case_bool_decide as Hu; [done|]. destruct Hk. by right; right.
  - destruct Hk. by left.
Qed.


(** Without a path, whatever the origin: every listener that is [kept] is
    called with the value at its own path. *)
Lemma notifyListeners_kept fileCache fc originId st :
  entries st !! fileCache = Some fc →
  notifyListeners fileCache None originId st
  = with_calls
      (calls st
       ++ map (fun l => (onCacheUpdate l,
                          traverseObjectByPath (objects st) (metadataPath l)
                            (JS.VRef (metadata fc))))
            (filter (kept originId) (listeners fc))) st.
Proof.
  intros HE. unfold notifyListeners. rewrite HE, notify_loop_calls. do 2 f_equal.
  induction (listeners fc) as [|l ls IH]; simpl; [done|].
  rewrite IH, filter_cons. unfold notification at 1. rewrite skipped_not_kept.
  destruct (decide (kept originId l)) as [Hk|Hk].
  - by rewrite (bool_decide_eq_true_2 _ Hk).
  - by rewrite (bool_decide_eq_false_2 _ Hk).
Qed.

(** ** Paths *)



Lemma strict_eq_undef v : JS.strict_eq v JS.VUndef = true ↔ v = JS.VUndef.
Proof. destruct v; simpl; naive_solver. Qed.


(** ** [updatePropertyInMetadataFileCache] *)

(** C10: on a document without a cache entry [updatePropertyInMetadataFileCache]
    completes normally, with no error raised, and [unregister] completes too;
    neither changes anything: no entry is created, no listener is called. *)
Theorem no_entry_silent path value pathParts originId id st :
  getCacheForFile path st = None →
  updatePropertyInMetadataFileCache value pathParts path originId st = (Normal, st)
  ∧ unregister path id st = st.
Proof.
  intros Hnone. unfold updatePropertyInMetadataFileCache, unregister.
  by rewrite Hnone.
Qed.

(** C3: when the parent of the path does not exist in the entry's data (the
    traversal to it yields [undefined]), the call throws the missing-parent
    error and the whole state, hence the entry's data, dirty flag, counter
    and listeners, is exactly what it was. *)
Theorem missing_parent_throws path fileCache fc value pathParts originId st :
  getCacheForFile path st = Some (fileCache, fc) →
  traverseObjectByPath (objects st) (removelast pathParts) (JS.VRef (metadata fc))
  = JS.VUndef →
  updatePropertyInMetadataFileCache value pathParts path originId st
  = (Throw (MissingParent pathParts), st).
Proof.
  intros Hfind Hparent. unfold updatePropertyInMetadataFileCache.
  rewrite Hfind. unfold traverseObjectToParentByPath. simpl. by rewrite Hparent.
Qed.

(** C2, amended: when the parent exists and the value passed is strictly
    equal ([===]) to the one stored at the path, the call is a no-op: the
    state is unchanged (data, dirty flag, counter, calls made), and the next
    tick issues the writes it would have issued without the call. *)
Theorem redundant_update_noop path fileCache fc value pathParts originId st :
  getCacheForFile path st = Some (fileCache, fc) →
  let pc := traverseObjectToParentByPath (objects st) pathParts (JS.VRef (metadata fc)) in
  parent_value pc ≠ JS.VUndef →
  JS.strict_eq (child_value pc) value = true →
  updatePropertyInMetadataFileCache value pathParts path originId st = (Normal, st)
  ∧ pendingWrites
      (update (updatePropertyInMetadataFileCache value pathParts path originId st).2)
    = pendingWrites (update st).
Proof.
  intros Hfind pc Hparent Heq.
  assert (updatePropertyInMetadataFileCache value pathParts path originId st = (Normal, st))
    as Hnoop.
  { unfold updatePropertyInMetadataFileCache. rewrite Hfind. fold pc.
    destruct (JS.strict_eq (parent_value pc) JS.VUndef) eqn:Hu.
    - by apply strict_eq_undef in Hu.
    - by rewrite Heq. }
  split; [done|]. by rewrite Hnoop.
Qed.

(** A parent that is there but cannot hold properties: the write fails
    with a TypeError, and nothing was changed before it. *)
Lemma scalar_parent_throws path fileCache fc value pathParts originId st :
  getCacheForFile path st = Some (fileCache, fc) →
  let pc := traverseObjectToParentByPath (objects st) pathParts (JS.VRef (metadata fc)) in
  parent_value pc ≠ JS.VUndef →
  JS.strict_eq (child_value pc) value = false →
  JS.set_prop (objects st) (parent_value pc) (child_key pc) value = None →
  updatePropertyInMetadataFileCache value pathParts path originId st = (Throw TypeError, st).
Proof.
  intros Hfind pc Hparent Hneq Hset.
  unfold updatePropertyInMetadataFileCache. rewrite Hfind. fold pc.
  destruct (JS.strict_eq (parent_value pc) JS.VUndef) eqn:Hu.
  - by apply strict_eq_undef in Hu.
  - by rewrite Hneq, Hset.
Qed.


(** ** [update], the tick *)

Lemma update_entry_eq st x :
  update_entry st x
  = with_entries (alter tick_entry x (entries st))
      (with_pendingWrites (pendingWrites st ++ option_list (dirty_write (entries st) x)) st).
Proof.
  unfold update_entry, dirty_write, updateFrontmatter.
  destruct (entries st !! x) as [fc|] eqn:Hx.
  - destruct (changed fc) eqn:Hc; simpl; rewrite ?Hx; unfold with_entries, with_pendingWrites;
      simpl; f_equal; try by rewrite app_nil_r.
    + apply map_eq. intros y. destruct (decide (x = y)) as [<-|Hne].
      * rewrite !lookup_alter_eq, lookup_insert_eq, Hx. done.
      * by rewrite !lookup_alter_ne, lookup_insert_ne.
    + apply map_eq. intros y. destruct (decide (x = y)) as [<-|Hne].
      * rewrite !lookup_alter_eq, Hx. simpl. unfold tick_entry, set_changed, set_cycles.
        simpl. by rewrite Hc.
      * by rewrite !lookup_alter_ne.
  - destruct st; simpl in *. unfold with_entries, with_pendingWrites; simpl.
    rewrite app_nil_r. f_equal. apply map_eq. intros y.
    destruct (decide (x = y)) as [<-|Hne].
    + by rewrite lookup_alter_eq, Hx.
    + by rewrite lookup_alter_ne.
Qed.

Lemma dirty_write_ext E E' (c : list nat) :
  (∀ x, x ∈ c → E' !! x = E !! x) → omap (dirty_write E') c = omap (dirty_write E) c.
Proof.
  induction c as [|y r IH]; intros HE; csimpl; [done|].
  assert (dirty_write E' y = dirty_write E y) as ->.
  { unfold dirty_write. by rewrite (HE y) by apply list_elem_of_here. }
  rewrite IH; [done|]. intros x Hx. apply HE. by apply list_elem_of_further.
Qed.

(** The loop of [update] over references [c] that are pairwise distinct. *)
Lemma update_loop (c : list nat) st :
  NoDup c →
  let st' := foldl update_entry st c in
  cache st' = cache st ∧ objects st' = objects st
  ∧ pendingReads st' = pendingReads st ∧ calls st' = calls st
  ∧ pendingWrites st' = pendingWrites st ++ omap (dirty_write (entries st)) c
  ∧ ∀ x, entries st' !! x
         = if decide (x ∈ c) then tick_entry <$> entries st !! x else entries st !! x.
Proof.
  revert st. induction c as [|y r IH]; intros st Hnd; csimpl.
  - rewrite app_nil_r. by split_and!.
  - apply NoDup_cons in Hnd as [Hy Hr].
    destruct (IH (update_entry st y) Hr) as (Hc & Ho & Hrd & Hcl & Hw & HE).
    rewrite update_entry_eq in Hc, Ho, Hrd, Hcl, Hw, HE. rewrite update_entry_eq.
    csimpl in *. split_and!; try done.
    + rewrite Hw, <- app_assoc. f_equal.
      rewrite (dirty_write_ext (entries st)).
      * by destruct (dirty_write (entries st) y).
      * intros x Hx. rewrite lookup_alter_ne; [done|]. by intros <-.
    + intros x. rewrite HE. destruct (decide (x = y)) as [->|Hne].
      * rewrite decide_False by done. rewrite lookup_alter_eq.
        rewrite decide_True; [done|apply list_elem_of_here].
      * rewrite lookup_alter_ne by done.
        destruct (decide (x ∈ r)).
        -- rewrite decide_True; [done|by apply list_elem_of_further].
        -- rewrite decide_False; [done|]. intros [?|?]%elem_of_cons; done.
Qed.

Lemma update_frame st :
  wf st →
  cache (update st) = cache st ∧ objects (update st) = objects st
  ∧ pendingReads (update st) = pendingReads st ∧ calls (update st) = calls st.
Proof.
  intros [Hnd _]. destruct (update_loop (cache st) st Hnd) as (?&?&?&?&_).
  by split_and!.
Qed.

Lemma update_entries st x :
  wf st → x ∈ cache st → entries (update st) !! x = tick_entry <$> entries st !! x.
Proof.
  intros [Hnd _] Hx. destruct (update_loop (cache st) st Hnd) as (_&_&_&_&_&HE).
  unfold update. rewrite HE. by rewrite decide_True.
Qed.

Lemma update_writes st :
  wf st →
  pendingWrites (update st) = pendingWrites st ++ omap (dirty_write (entries st)) (cache st).
Proof.
  intros [Hnd _]. by destruct (update_loop (cache st) st Hnd) as (_&_&_&_&?&_).
Qed.

Lemma update_wf st : wf st → wf (update st).
Proof.
  intros Hwf. destruct (update_frame st Hwf) as (Hc&_). split.
  - rewrite Hc. apply Hwf.
  - intros x Hx. rewrite Hc in Hx. rewrite update_entries by done.
    apply fmap_is_Some. by apply Hwf.
Qed.

Lemma update_getCacheForFile path st :
  wf st →
  getCacheForFile path (update st) = prod_map id tick_entry <$> getCacheForFile path st.
Proof.
  intros Hwf. unfold getCacheForFile.
  destruct (update_frame st Hwf) as (-> & _).
  apply find_file_fmap; [done|]. intros x Hx. by apply update_entries.
Qed.

(** After a tick no entry of the cache is dirty. *)
Lemma update_clean st :
  wf st → omap (dirty_write (entries (update st))) (cache st) = [].
Proof.
  intros Hwf.
  assert (∀ c : list nat, (∀ x, x ∈ c → x ∈ cache st) →
               omap (dirty_write (entries (update st))) c = []) as Hall.
  { induction c as [|y r IH]; intros Hsub; csimpl; [done|].
    rewrite IH by (intros x Hx; apply Hsub; by apply list_elem_of_further).
    unfold dirty_write. rewrite update_entries; [|done|apply Hsub, list_elem_of_here].
    by destruct (entries st !! y). }
  by apply Hall.
Qed.

(** ** The invariant *)

Lemma wf_constructor : wf constructor.
Proof. split; [apply NoDup_nil_2|]. by intros x ?%elem_of_nil. Qed.

Lemma wf_frame st st' :
  cache st' = cache st →
  (∀ x, is_Some (entries st !! x) → is_Some (entries st' !! x)) →
  wf st → wf st'.
Proof.
  intros Hc HE [Hnd Hin]. split; rewrite Hc; [done|]. intros x Hx. by apply HE, Hin.
Qed.

Lemma notifyListeners_frame fileCache path exceptUuid st :
  ∃ cs, notifyListeners fileCache path exceptUuid st = with_calls cs st.
Proof.
  unfold notifyListeners. destruct (entries st !! fileCache) as [fc|].
  - rewrite notify_loop_calls. by eexists.
  - exists (calls st). by rewrite with_calls_id.
Qed.

Lemma is_Some_insert_mono {A} (E : gmap nat A) x y a :
  is_Some (E !! y) → is_Some (<[x := a]> E !! y).
Proof.
  intros Hy. destruct (decide (x = y)) as [->|Hne].
  - rewrite lookup_insert_eq. by eexists.
  - by rewrite lookup_insert_ne.
Qed.

Lemma update_iter_wf k st : wf st → wf (Nat.iter k update st).
Proof. intros Hwf. induction k as [|k IH]; simpl; [done|]. by apply update_wf. Qed.

Lemma update_iter_getCacheForFile k path st :
  wf st →
  getCacheForFile path (Nat.iter k update st)
  = prod_map id (Nat.iter k tick_entry) <$> getCacheForFile path st.
Proof.
  intros Hwf. induction k as [|k IH]; simpl.
  - by destruct (getCacheForFile path st) as [[??]|].
  - rewrite update_getCacheForFile by by apply update_iter_wf.
    rewrite IH. by destruct (getCacheForFile path st) as [[??]|].
Qed.

(** ** [updateMetadataFileCacheOnFrontmatterUpdate] *)

Lemma frontmatter_update_discarded path fileCache fc frontmatter st :
  getCacheForFile path st = Some (fileCache, fc) →
  (cyclesSinceLastUpdate fc < updateCycleThreshold)%Z →
  updateMetadataFileCacheOnFrontmatterUpdate path frontmatter st = st.
Proof.
  intros Hfind Hlt. unfold updateMetadataFileCacheOnFrontmatterUpdate. rewrite Hfind.
  by rewrite (proj2 (Z.ltb_lt _ _) Hlt).
Qed.

Lemma frontmatter_update_accepted path fileCache fc frontmatter st :
  getCacheForFile path st = Some (fileCache, fc) →
  (updateCycleThreshold ≤ cyclesSinceLastUpdate fc)%Z →
  let m := JS.fresh_loc (objects st) in
  let h := <[m := copy_frontmatter (objects st) frontmatter]> (objects st) in
  let fc' := set_changed true (set_cycles 0 (set_metadata m fc)) in
  updateMetadataFileCacheOnFrontmatterUpdate path frontmatter st
  = with_calls
      (calls st
       ++ map (fun l => (onCacheUpdate l,
                          traverseObjectByPath h (metadataPath l) (JS.VRef m)))
            (listeners fc))
      (with_entries (<[fileCache := fc']> (entries st)) (with_objects h st)).
Proof.
  intros Hfind Hge m h fc'. unfold updateMetadataFileCacheOnFrontmatterUpdate.
  rewrite Hfind. rewrite (proj2 (Z.ltb_ge _ _) Hge).
  by rewrite (notifyListeners_all fileCache fc') by apply lookup_insert_eq.
Qed.

Lemma fresh_loc_None (h : gmap JS.loc JS.Obj) : h !! JS.fresh_loc h = None.
Proof. unfold JS.fresh_loc. apply (not_elem_of_dom (D := gset nat)), is_fresh. Qed.

(** C1: an external change for a document that has an entry is discarded
    while the entry's counter is below 5: the state, hence the entry's data,
    dirty flag and listeners, is unchanged and no listener is called.  From 5
    on it is applied: the entry's data becomes a new object holding the
    snapshot's properties (without [position]), and every listener is
    called, in registration order, with the value at its own path in the new
    data. *)
Theorem external_change path fileCache fc frontmatter st :
  getCacheForFile path st = Some (fileCache, fc) →
  let st' := updateMetadataFileCacheOnFrontmatterUpdate path frontmatter st in
  ((cyclesSinceLastUpdate fc < 5)%Z → st' = st)
  ∧ ((5 ≤ cyclesSinceLastUpdate fc)%Z →
     let m := JS.fresh_loc (objects st) in
     objects st !! m = None
     ∧ objects st' = <[m := copy_frontmatter (objects st) frontmatter]> (objects st)
     ∧ (∃ fc', getCacheForFile path st' = Some (fileCache, fc')
               ∧ metadata fc' = m ∧ listeners fc' = listeners fc)
     ∧ calls st'
       = calls st
         ++ map (fun l => (onCacheUpdate l,
                            traverseObjectByPath (objects st') (metadataPath l) (JS.VRef m)))
              (listeners fc)).
Proof.
  intros Hfind st'. split.
  - intros Hlt. by apply (frontmatter_update_discarded path fileCache fc).
  - intros Hge m. unfold st'.
    rewrite (frontmatter_update_accepted path fileCache fc) by done. simpl.
    split_and!; [apply fresh_loc_None|done| |done].
    exists (set_changed true (set_cycles 0 (set_metadata m fc))). split; [|done].
    destruct (find_file_Some _ _ _ _ _ Hfind) as (_ & Hfile & _).
    by apply (find_file_insert _ _ _ _ fc).
Qed.

(** C9: a document's external change accepted at counter 5 or more leaves
    the entry with its counter at zero and dirty; the next tick therefore
    issues a write of the entry's new data object, which at that moment
    holds the properties of the snapshot just ingested (all but [position])
    and nothing else, and an external change arriving after fewer than 5
    further ticks is discarded, whatever it holds. *)
Theorem accepted_change_is_a_local_write path fileCache fc frontmatter st :
  wf st →
  getCacheForFile path st = Some (fileCache, fc) →
  (5 ≤ cyclesSinceLastUpdate fc)%Z →
  let st' := updateMetadataFileCacheOnFrontmatterUpdate path frontmatter st in
  let m := JS.fresh_loc (objects st) in
  (∃ fc', getCacheForFile path st' = Some (fileCache, fc')
          ∧ cyclesSinceLastUpdate fc' = 0%Z ∧ changed fc' = true ∧ metadata fc' = m)
  ∧ objects st' !! m = Some (copy_frontmatter (objects st) frontmatter)
  ∧ (∃ ws1 ws2, pendingWrites (update st') = pendingWrites st ++ ws1 ++ (path, m) :: ws2)
  ∧ (∀ snapshot ob, frontmatter = Some snapshot → objects st !! snapshot = Some ob →
       objects (update st') !! m
       = Some (JS.mkObj JS.Mapping (delete "position" (JS.props ob)))
       ∧ JS.get_prop (objects (update st')) (JS.VRef m) "position" = JS.VUndef
       ∧ ∀ k, k ≠ "position" →
           JS.get_prop (objects (update st')) (JS.VRef m) k
           = JS.get_prop (objects st) (JS.VRef snapshot) k)
  ∧ ∀ k frontmatter', (k < 5)%nat →
      updateMetadataFileCacheOnFrontmatterUpdate path frontmatter' (Nat.iter k update st')
      = Nat.iter k update st'.
Proof.
  intros Hwf Hfind Hge st' m.
  destruct (find_file_Some _ _ _ _ _ Hfind) as (HE & Hfile & Hin).
  set (fc' := set_changed true (set_cycles 0 (set_metadata m fc))).
  assert (st' = with_calls (calls st' )
                  (with_entries (<[fileCache := fc']> (entries st))
                     (with_objects
                        (<[m := copy_frontmatter (objects st) frontmatter]> (objects st)) st)))
    as Hst'.
  { unfold st'. by rewrite (frontmatter_update_accepted path fileCache fc) by done. }
  assert (wf st') as Hwf'.
  { rewrite Hst'. apply (wf_frame st); [done| |done]. simpl. intros x.
    apply is_Some_insert_mono. }
  assert (getCacheForFile path st' = Some (fileCache, fc')) as Hfind'.
  { rewrite Hst'. by apply (find_file_insert _ _ _ _ fc). }
  split_and!.
  - by exists fc'.
  - rewrite Hst'. simpl. apply lookup_insert_eq.
  - rewrite update_writes by done.
    assert ((path, m) ∈ omap (dirty_write (entries st')) (cache st')) as Hw.
    { apply list_elem_of_omap. exists fileCache. split.
      - rewrite Hst'. done.
      - unfold dirty_write. rewrite Hst'. simpl. rewrite lookup_insert_eq. simpl.
        by rewrite Hfile. }
    apply list_elem_of_split in Hw as (ws1 & ws2 & ->).
    exists ws1, ws2. by rewrite Hst'.
  - intros snapshot ob -> Hob.
    destruct (update_frame st' Hwf') as (_ & -> & _).
    assert (objects st' !! m
            = Some (JS.mkObj JS.Mapping (delete "position" (JS.props ob)))) as Hm.
    { rewrite Hst'. simpl. rewrite lookup_insert_eq. unfold copy_frontmatter.
      by rewrite Hob. }
    split_and!; [done| |].
    + simpl. rewrite Hm. simpl. by rewrite lookup_delete_eq.
    + intros k Hk. simpl. rewrite Hm, Hob. simpl. by rewrite lookup_delete_ne.
  - intros k frontmatter' Hk.
    apply (frontmatter_update_discarded _ fileCache (Nat.iter k tick_entry fc')).
    + rewrite update_iter_getCacheForFile by done. by rewrite Hfind'.
    + do 5 (destruct k as [|k]; [done|]). lia.
Qed.

(** ** Persistence *)

(** C5, amended: a tick issues a write for every dirty entry of the cache,
    whatever writes are still in flight, the entry's own previous write
    included; it leaves every entry clean, having cleared the flag as it
    issued the write, and with its counter incremented. *)
Theorem tick_writes_every_dirty_entry st :
  wf st →
  pendingWrites (update st)
  = pendingWrites st ++ omap (dirty_write (entries st)) (cache st)
  ∧ ∀ x fc, x ∈ cache st → entries st !! x = Some fc →
      entries (update st) !! x = Some (tick_entry fc)
      ∧ (changed fc = true →
         ∃ ws1 ws2,
           pendingWrites (update st)
           = pendingWrites st ++ ws1 ++ (file fc, metadata fc) :: ws2).
Proof.
  intros Hwf. split; [by apply update_writes|]. intros x fc Hx HE. split.
  - rewrite update_entries by done. by rewrite HE.
  - intros Hdirty. rewrite update_writes by done.
    assert ((file fc, metadata fc) ∈ omap (dirty_write (entries st)) (cache st)) as Hw.
    { apply list_elem_of_omap. exists x. split; [done|].
      unfold dirty_write. by rewrite HE, Hdirty. }
    apply list_elem_of_split in Hw as (ws1 & ws2 & ->). by exists ws1, ws2.
Qed.

Lemma register_existing path fileCache fc cb mp id st :
  getCacheForFile path st = Some (fileCache, fc) →
  register path cb mp id st
  = (fileCache,
     with_entries
       (<[fileCache := set_listeners (listeners fc ++ [mkListener cb mp id]) fc]> (entries st))
       st).
Proof. intros Hfind. unfold register. by rewrite Hfind. Qed.

(** The entry [register] creates is the one found afterwards. *)
Lemma find_file_new E path (c : list nat) x fc :
  find_file E path c = None → file fc = path →
  find_file (<[x := fc]> E) path (c ++ [x]) = Some (x, fc).
Proof.
  intros Hnone Hfile. induction c as [|y r IH]; simpl in *.
  - rewrite lookup_insert_eq. by rewrite bool_decide_eq_true_2.
  - destruct (decide (x = y)) as [->|Hne].
    + rewrite lookup_insert_eq. by rewrite bool_decide_eq_true_2.
    + rewrite lookup_insert_ne by done.
      destruct (E !! y) as [fy|]; [|by apply IH].
      case_bool_decide; [done|by apply IH].
Qed.

Lemma register_new path cb mp id st :
  getCacheForFile path st = None →
  let c := fresh (dom (entries st)) in
  let m := JS.fresh_loc (objects st) in
  let st' := (register path cb mp id st).2 in
  (register path cb mp id st).1 = c
  ∧ getCacheForFile path st' = Some (c, mkFileCache path m [mkListener cb mp id] 0 false)
  ∧ cache st' = cache st ++ [c]
  ∧ entries st' = <[c := mkFileCache path m [mkListener cb mp id] 0 false]> (entries st)
  ∧ objects st' = <[m := JS.empty_object]> (objects st)
  ∧ pendingReads st' = pendingReads st ++ [(c, path)]
  ∧ pendingWrites st' = pendingWrites st
  ∧ calls st' = calls st.
Proof.
  intros Hnone c m st'. unfold st', register. rewrite Hnone. simpl.
  split_and!; try done. by apply find_file_new.
Qed.

(** C6, amended: a failure of the persistence layer reaches no listener
    and is not made up for.  A write that fails after a tick leaves every
    entry of the cache clean, as the tick left it, so that the next tick
    issues no write at all; a read that fails leaves the entry [register]
    created with its empty data, and a later [register] for the document,
    finding the entry, starts no new read. *)
Theorem persistence_failure_not_retried path cb mp id w st :
  wf st →
  getCacheForFile path st = None →
  (let st1 := setFrontmatter_settled w false (update st) in
   calls st1 = calls st
   ∧ (∀ x fc, x ∈ cache st → entries st !! x = Some fc →
        changed <$> entries st1 !! x = Some false)
   ∧ pendingWrites (update st1) = pendingWrites st1)
  ∧ (let '(c, st1) := register path cb mp id st in
     let st2 := cachedRead_rejected c path st1 in
     calls st2 = calls st
     ∧ getCacheForFile path st2
       = Some (c, mkFileCache path (JS.fresh_loc (objects st)) [mkListener cb mp id] 0 false)
     ∧ objects st2 !! JS.fresh_loc (objects st) = Some JS.empty_object
     ∧ ∀ cb' mp' id',
         pendingReads (register path cb' mp' id' st2).2 = pendingReads st2).
Proof.
  intros Hwf Hnone. split.
  - simpl. destruct (update_frame st Hwf) as (Hc & _ & _ & Hcalls).
    split_and!; [done| |].
    + intros x fc Hx HE. rewrite update_entries by done. by rewrite HE.
    + set (st1 := setFrontmatter_settled w false (update st)).
      assert (wf st1) as Hwf1 by by apply (wf_frame (update st)), update_wf.
      rewrite update_writes by done.
      change (entries st1) with (entries (update st)).
      change (cache st1) with (cache (update st)).
      rewrite Hc, update_clean by done. apply app_nil_r.
  - destruct (register_new path cb mp id st Hnone)
      as (Hc & Hfind & _ & _ & Hobj & _ & _ & Hcalls).
    destruct (register path cb mp id st) as [c st1]. simpl in *. subst c.
    split_and!; [done|done| |].
    + rewrite Hobj. apply lookup_insert_eq.
    + intros cb' mp' id'.
      by rewrite (register_existing path _ _ cb' mp' id' (cachedRead_rejected _ path st1) Hfind).
Qed.

(** ** [register] and [unregister] *)

Lemma find_file_filtered E path (c : list nat) :
  find_file E path (List.filter (fun x => negb (has_path E path x)) c) = None.
Proof.
  induction c as [|y r IH]; simpl; [done|].
  destruct (has_path E path y) eqn:Hy; simpl; [done|].
  unfold has_path in Hy. destruct (E !! y) as [fy|]; [|done]. by rewrite Hy.
Qed.

Lemma unregister_last path fileCache fc id st :
  getCacheForFile path st = Some (fileCache, fc) →
  Forall (fun x => uuid x = id) (listeners fc) →
  let E := <[fileCache := set_listeners [] fc]> (entries st) in
  unregister path id st
  = with_cache (List.filter (fun x => negb (has_path E path x)) (cache st))
      (with_entries E st).
Proof.
  intros Hfind Hall E. unfold unregister. rewrite Hfind.
  assert (List.filter (fun x => negb (bool_decide (uuid x = id))) (listeners fc) = []) as ->.
  { induction Hall as [|x ls Hx _ IH]; simpl; [done|].
    by rewrite (bool_decide_eq_true_2 _ Hx). }
  done.
Qed.

Lemma set_listeners_id fc : set_listeners (listeners fc) fc = fc.
Proof. by destruct fc. Qed.

Lemma with_entries_id st : with_entries (entries st) st = st.
Proof. by destruct st. Qed.

Lemma registerAll_existing path rs st fileCache fc :
  getCacheForFile path st = Some (fileCache, fc) →
  registerAll path rs st
  = (replicate (length rs) fileCache,
     with_entries (<[fileCache := set_listeners (listeners fc ++ rs) fc]> (entries st)) st).
Proof.
  revert st fc. induction rs as [|r rs IH]; intros st fc Hfind; simpl.
  - destruct (find_file_Some _ _ _ _ _ Hfind) as (HE & _).
    by rewrite app_nil_r, set_listeners_id, insert_id, with_entries_id.
  - rewrite (register_existing _ _ _ _ _ _ _ Hfind).
    destruct (find_file_Some _ _ _ _ _ Hfind) as (_ & Hfile & _).
    rewrite (IH _ (set_listeners (listeners fc ++ [mkListener (onCacheUpdate r)
                                                    (metadataPath r) (uuid r)]) fc)).
    + simpl. rewrite insert_insert_eq. unfold set_listeners at 1. simpl.
      rewrite <- app_assoc. by destruct r.
    + by apply (find_file_insert _ _ _ _ fc).
Qed.

(** C8: a run of [register] calls for one document begins the read from
    the persistence layer once, in the call that creates the entry, and not
    at all when the entry was there before; every call returns the same
    entry, the listeners are appended in order, and no callback is invoked. *)
Theorem register_sequence path r rs st :
  let res := registerAll path (r :: rs) st in
  match getCacheForFile path st with
  | None =>
      let c := fresh (dom (entries st)) in
      res.1 = replicate (S (length rs)) c
      ∧ pendingReads res.2 = pendingReads st ++ [(c, path)]
      ∧ getCacheForFile path res.2
        = Some (c, mkFileCache path (JS.fresh_loc (objects st)) (r :: rs) 0 false)
      ∧ calls res.2 = calls st
  | Some (fileCache, fc) =>
      res = (replicate (S (length rs)) fileCache,
             with_entries
               (<[fileCache := set_listeners (listeners fc ++ r :: rs) fc]> (entries st)) st)
  end.
Proof.
  intros res. destruct (getCacheForFile path st) as [[fileCache fc]|] eqn:Hfind.
  - unfold res. by rewrite (registerAll_existing _ _ _ _ _ Hfind).
  - intros c.
    destruct (register_new path (onCacheUpdate r) (metadataPath r) (uuid r) st Hfind)
      as (Hc & Hfind1 & _ & _ & _ & Hreads & _ & Hcalls).
    unfold res. simpl.
    destruct (register path (onCacheUpdate r) (metadataPath r) (uuid r) st) as [c1 st1].
    simpl in *. subst c1. fold c in Hfind1, Hreads.
    rewrite (registerAll_existing _ _ _ _ _ Hfind1). simpl.
    split_and!; [done|done| |done].
    unfold getCacheForFile. simpl. erewrite find_file_insert; [|exact Hfind1|done].
    by destruct r.
Qed.

(** C7: unregistering the last listener of a document deletes its entry
    at once; a [register] that follows creates a new entry, distinct from the
    deleted one, with new empty data, and begins a read from the persistence
    layer, whose result becomes the entry's data. *)
Theorem unregister_last_then_register path fileCache fc l0 cb mp id st :
  getCacheForFile path st = Some (fileCache, fc) →
  listeners fc = [l0] →
  let st1 := unregister path (uuid l0) st in
  let m := JS.fresh_loc (objects st) in
  getCacheForFile path st1 = None
  ∧ let '(c, st2) := register path cb mp id st1 in
    c ≠ fileCache ∧ entries st !! c = None ∧ objects st !! m = None
    ∧ getCacheForFile path st2 = Some (c, mkFileCache path m [mkListener cb mp id] 0 false)
    ∧ objects st2 !! m = Some JS.empty_object
    ∧ pendingReads st2 = pendingReads st ++ [(c, path)]
    ∧ ∀ parsed,
        getCacheForFile path (cachedRead_resolved c path (Some parsed) st2)
        = Some (c, mkFileCache path parsed [mkListener cb mp id] 0 false).
Proof.
  intros Hfind Hls st1 m.
  destruct (find_file_Some _ _ _ _ _ Hfind) as (HE & Hfile & _).
  assert (st1 = with_cache
                  (List.filter
                     (fun x => negb (has_path (<[fileCache := set_listeners [] fc]> (entries st))
                                       path x)) (cache st))
                  (with_entries (<[fileCache := set_listeners [] fc]> (entries st)) st))
    as Hst1.
  { apply unregister_last; [done|]. rewrite Hls. by apply Forall_singleton. }
  assert (getCacheForFile path st1 = None) as Hnone.
  { rewrite Hst1. apply find_file_filtered. }
  split; [done|].
  destruct (register_new path cb mp id st1 Hnone)
    as (Hc & Hfind2 & _ & HE2 & Hobj & Hreads & _ & _).
  destruct (register path cb mp id st1) as [c st2]. simpl in *.
  assert (entries st1 !! c = None) as Hfresh.
  { rewrite Hc. apply (not_elem_of_dom (D := gset nat)), is_fresh. }
  assert (objects st1 = objects st) as Hobj1 by by rewrite Hst1.
  assert (c ≠ fileCache) as Hne.
  { intros ->. rewrite Hst1 in Hfresh. simpl in Hfresh.
    by rewrite lookup_insert_eq in Hfresh. }
  rewrite Hobj1 in Hfind2, Hobj. fold m in Hfind2, Hobj.
  rewrite <- Hc in Hfind2, Hreads.
  split_and!; [done| |apply fresh_loc_None|done| | |].
  - rewrite Hst1 in Hfresh. simpl in Hfresh. by rewrite lookup_insert_ne in Hfresh.
  - rewrite Hobj. apply lookup_insert_eq.
  - rewrite Hreads. by rewrite Hst1.
  - intros parsed. unfold cachedRead_resolved. simpl.
    destruct (find_file_Some _ _ _ _ _ Hfind2) as (HEc & _).
    rewrite HEc. simpl.
    destruct (notifyListeners_frame c None None
                (with_entries
                   (<[c := set_metadata parsed
                             (mkFileCache path m [mkListener cb mp id] 0 false)]>
                      (entries st2))
                   (with_objects (objects st2)
                      (with_pendingReads (remove_first (c, path) (pendingReads st2)) st2))))
      as [cs ->].
    by apply (find_file_insert _ _ _ _ _ _ Hfind2).
Qed.

(** ** The invariant is kept by every operation *)

(** The calls made by [notifyListeners] do not matter to the invariant. *)
Ltac drop_notify :=
  match goal with
  | |- wf (notifyListeners ?a ?b ?c ?s) =>
      let cs := fresh "cs" in destruct (notifyListeners_frame a b c s) as [cs ->]
  end.

(** The cache is as in [st], and an entry of [st] was overwritten. *)
Ltac wf_overwrite st :=
  apply (wf_frame st); [done| |done]; simpl; intros ?; apply is_Some_insert_mono.

Lemma register_wf path cb mp id st : wf st → wf (register path cb mp id st).2.
Proof.
  intros Hwf. destruct (getCacheForFile path st) as [[fileCache fc]|] eqn:Hfind.
  - rewrite (register_existing _ _ _ _ _ _ _ Hfind). simpl. wf_overwrite st.
  - destruct (register_new path cb mp id st Hfind) as (_ & _ & Hc & HE & _).
    destruct Hwf as [Hnd Hin]. split.
    + rewrite Hc. apply NoDup_app. split_and!; [done| |apply NoDup_singleton].
      intros x Hx ->%list_elem_of_singleton. apply Hin in Hx.
      by apply (elem_of_dom (D := gset nat)), is_fresh in Hx.
    + intros x. rewrite Hc, HE. intros [Hx| ->%list_elem_of_singleton]%elem_of_app.
      * by apply is_Some_insert_mono, Hin.
      * rewrite lookup_insert_eq. by eexists.
Qed.

Lemma elem_of_List_filter {A} (f : A → bool) (l : list A) x :
  x ∈ List.filter f l → x ∈ l.
Proof.
  intros Hx. apply list_elem_of_In in Hx. apply List.filter_In in Hx.
  apply list_elem_of_In, Hx.
Qed.

Lemma NoDup_List_filter {A} (f : A → bool) (l : list A) :
  NoDup l → NoDup (List.filter f l).
Proof.
  induction 1 as [|x l Hx Hnd IH]; simpl; [apply NoDup_nil_2|].
  destruct (f x); [|done]. apply NoDup_cons. split; [|done].
  intros Hin. by apply Hx, (elem_of_List_filter f).
Qed.

Lemma unregister_wf path id st : wf st → wf (unregister path id st).
Proof.
  intros Hwf. unfold unregister.
  destruct (getCacheForFile path st) as [[fileCache fc]|]; [|done].
  set (st1 := with_entries _ st).
  assert (wf st1) as [Hnd Hin] by wf_overwrite st.
  case_bool_decide; [|done]. split; simpl.
  - by apply NoDup_List_filter.
  - intros x Hx. by apply Hin, (elem_of_List_filter _ _ _ Hx).
Qed.

Lemma updateProperty_wf value pathParts path originId st :
  wf st → wf (updatePropertyInMetadataFileCache value pathParts path originId st).2.
Proof.
  intros Hwf. unfold updatePropertyInMetadataFileCache.
  destruct (getCacheForFile path st) as [[fileCache fc]|]; [|done].
  destruct (JS.strict_eq _ JS.VUndef); [done|].
  destruct (JS.strict_eq _ value); [done|].
  destruct (JS.set_prop _ _ _ _) as [h|]; [|done]. simpl.
  drop_notify. wf_overwrite st.
Qed.

Lemma updateMetadataFileCache_wf metadata path id st :
  wf st → wf (updateMetadataFileCache metadata path id st).
Proof.
  intros Hwf. unfold updateMetadataFileCache.
  destruct (getCacheForFile path st) as [[fileCache fc]|]; [|done].
  drop_notify. wf_overwrite st.
Qed.

Lemma frontmatter_update_wf path frontmatter st :
  wf st → wf (updateMetadataFileCacheOnFrontmatterUpdate path frontmatter st).
Proof.
  intros Hwf. unfold updateMetadataFileCacheOnFrontmatterUpdate.
  destruct (getCacheForFile path st) as [[fileCache fc]|]; [|done].
  destruct (_ <? _)%Z; [done|].
  drop_notify. wf_overwrite st.
Qed.

Lemma cachedRead_resolved_wf c path parsed st :
  wf st → wf (cachedRead_resolved c path parsed st).
Proof.
  intros Hwf. unfold cachedRead_resolved. simpl.
  destruct (entries st !! c) as [fc|]; [|by apply (wf_frame st)].
  drop_notify. wf_overwrite st.
Qed.

Lemma settled_wf c path w fulfilled st :
  wf st → wf (cachedRead_rejected c path st) ∧ wf (setFrontmatter_settled w fulfilled st).
Proof. intros Hwf. split; by apply (wf_frame st). Qed.

Lemma step_wf st st' : step st st' → wf st → wf st'.
Proof.
  destruct 1; intros Hwf.
  - by apply register_wf.
  - by apply unregister_wf.
  - by apply update_wf.
  - by apply updateMetadataFileCache_wf.
  - by apply updateProperty_wf.
  - by apply frontmatter_update_wf.
  - by apply cachedRead_resolved_wf.
  - by apply (settled_wf c path ("", 0%nat) true).
  - by apply (settled_wf 0%nat "" w fulfilled).
  - by apply (wf_frame st).
Qed.

(** Every state the manager can be in is well-formed. *)
Lemma reachable_wf st : reachable st → wf st.
Proof.
  unfold reachable. intros Hrtc.
  apply (rtc_ind_r (R := step) (fun s => wf s) constructor); [apply wf_constructor| |done].
  intros y z _ Hstep. by apply step_wf.
Qed.

(** * The scenario, run *)

Import Scenario.

Lemma wf_one st x : cache st = [x] → is_Some (entries st !! x) → wf st.
Proof.
  intros Hc Hx. split; rewrite Hc; [apply NoDup_singleton|].
  by intros y ->%list_elem_of_singleton.
Defined.

(** The states of the scenario, in full. *)
Example scenario_states :
  getCacheForFile "F.md" recent = Some (0%nat, entry [L1; L2; L3] 0 false)
  ∧ calls recent = [(1%nat, JS.VNum 1); (2%nat, JS.VNum 1); (3%nat, JS.VRef 3)]
  ∧ getCacheForFile "F.md" aged = Some (0%nat, entry [L1; L2; L3] 5 false)
  ∧ getCacheForFile "F.md" dirty = Some (0%nat, entry [L1; L2; L3] 0 true)
  ∧ pendingWrites dirty = []
  ∧ getCacheForFile "F.md" dirty_in_flight = Some (0%nat, entry [L1; L2; L3] 0 true)
  ∧ pendingWrites dirty_in_flight = [("F.md", 1%nat)]
  ∧ getCacheForFile "F.md" single = Some (0%nat, entry [L3] 0 false)
  ∧ getCacheForFile "F.md" anonymous = Some (0%nat, entry [L0; L2] 0 false).
Proof. split_and!; vm_compute; reflexivity. Qed.

(** C10 at work: nothing is registered yet. *)
Lemma no_entry_silent_witness :
  getCacheForFile "F.md" constructor = None
  ∧ updatePropertyInMetadataFileCache (JS.VNum 2) ["a"; "b"] "F.md" (Some "L1") constructor
    = (Normal, constructor)
  ∧ unregister "F.md" "L1" constructor = constructor.
Proof. split; [reflexivity|]. apply no_entry_silent. reflexivity. Defined.

(** C3 at work: [x] is not a property of the data, so [x.y] has no parent. *)
Lemma missing_parent_throws_witness :
  traverseObjectByPath (objects recent) ["x"] (JS.VRef 1) = JS.VUndef
  ∧ updatePropertyInMetadataFileCache (JS.VNum 2) ["x"; "y"] "F.md" (Some "L1") recent
    = (Throw (MissingParent ["x"; "y"]), recent).
Proof.
  split; [vm_compute; reflexivity|].
  apply (missing_parent_throws "F.md" 0%nat (entry [L1; L2; L3] 0 false));
    vm_compute; reflexivity.
Defined.

(** C2 at work: [a.b] holds 1 and is set to 1. *)
Lemma redundant_update_noop_witness :
  updatePropertyInMetadataFileCache (JS.VNum 1) ["a"; "b"] "F.md" (Some "L1") recent
  = (Normal, recent)
  ∧ pendingWrites
      (update
         (updatePropertyInMetadataFileCache (JS.VNum 1) ["a"; "b"] "F.md" (Some "L1") recent).2)
    = pendingWrites (update recent).
Proof.
  apply (redundant_update_noop "F.md" 0%nat (entry [L1; L2; L3] 0 false)).
  - vm_compute. reflexivity.
  - vm_compute. discriminate.
  - vm_compute. reflexivity.
Defined.

(** C2 refuted: the array stored under [tags] and the array passed are
    deep-equal, but they are two objects; the call replaces the one by the
    other, marks the entry dirty, resets its counter and notifies the
    listener of [tags], and the next tick writes the data back. *)
Lemma deep_equal_update_not_noop :
  let stored := traverseObjectByPath (objects aged) ["tags"] (JS.VRef 1) in
  let res := updatePropertyInMetadataFileCache (JS.VRef 4) ["tags"] "F.md" None aged in
  deep_equal 2 (objects aged) stored (JS.VRef 4) = true
  ∧ res ≠ (Normal, aged)
  ∧ getCacheForFile "F.md" aged = Some (0%nat, entry [L1; L2; L3] 5 false)
  ∧ getCacheForFile "F.md" res.2 = Some (0%nat, entry [L1; L2; L3] 0 true)
  ∧ traverseObjectByPath (objects res.2) ["tags"] (JS.VRef 1) = JS.VRef 4
  ∧ calls res.2 = calls aged ++ [(3%nat, JS.VRef 4)]
  ∧ pendingWrites (update res.2) = [("F.md", 1%nat)]
  ∧ pendingWrites (update aged) = [].
Proof.
  split_and!; try (vm_compute; reflexivity).
  intros Heq. apply (f_equal (fun r => calls r.2)) in Heq. vm_compute in Heq. discriminate.
Qed.



(** C1 at work: the snapshot [{a: {b: 9}, position: {}}] is discarded right
    after the load and applied five ticks later, when [L1] and [L2] receive 9
    and [L3], whose path the snapshot does not have, [undefined]; the new
    data has no [position]. *)
Lemma external_change_witness :
  updateMetadataFileCacheOnFrontmatterUpdate "F.md" (Some 5%nat) recent = recent
  ∧ (let st' := updateMetadataFileCacheOnFrontmatterUpdate "F.md" (Some 5%nat) aged in
     objects st' !! 9%nat = Some (JS.mkObj JS.Mapping {["a" := JS.VRef 6]})
     ∧ calls st'
       = calls aged ++ [(1%nat, JS.VNum 9); (2%nat, JS.VNum 9); (3%nat, JS.VUndef)]).
Proof.
  split.
  - apply (external_change "F.md" 0%nat (entry [L1; L2; L3] 0 false) (Some 5%nat) recent);
      [vm_compute; reflexivity|]. simpl. lia.
  - destruct (external_change "F.md" 0%nat (entry [L1; L2; L3] 5 false) (Some 5%nat) aged)
      as [_ Happlied]; [vm_compute; reflexivity|].
    destruct Happlied as (_ & Hobjects & _ & Hcalls); [simpl; lia|].
    simpl. rewrite Hcalls, Hobjects. split; vm_compute; reflexivity.
Defined.

(** C9 at work: the snapshot [{a: {b: 9}, position: {}}] is accepted; the
    tick that follows writes the new object 9 back, which holds [a] and no
    [position], and the same snapshot is discarded after 4 ticks. *)
Lemma accepted_change_is_a_local_write_witness :
  let st' := updateMetadataFileCacheOnFrontmatterUpdate "F.md" (Some 5%nat) aged in
  (∃ ws1 ws2, pendingWrites (update st') = pendingWrites aged ++ ws1 ++ ("F.md", 9%nat) :: ws2)
  ∧ objects (update st') !! 9%nat = Some (JS.mkObj JS.Mapping {["a" := JS.VRef 6]})
  ∧ updateMetadataFileCacheOnFrontmatterUpdate "F.md" (Some 5%nat) (Nat.iter 4 update st')
    = Nat.iter 4 update st'.
Proof.
  destruct (accepted_change_is_a_local_write "F.md" 0%nat (entry [L1; L2; L3] 5 false)
              (Some 5%nat) aged) as (_ & _ & Hwrite & Hcontent & Hecho).
  - apply (wf_one _ 0%nat); vm_compute; eauto.
  - vm_compute. reflexivity.
  - simpl. lia.
  - split_and!; [exact Hwrite| |apply Hecho; lia].
    destruct (Hcontent 5%nat
                (JS.mkObj JS.Mapping (<["a" := JS.VRef 6]> {["position" := JS.VRef 7]}))
                eq_refl) as (Hobject & _); [vm_compute; reflexivity|].
    etrans; [exact Hobject|]. vm_compute. reflexivity.
Defined.

(** C5 refuted: the entry is dirty and its previous write is in flight; the
    tick issues a second write for it and leaves it clean. *)
Lemma second_write_while_in_flight :
  getCacheForFile "F.md" dirty_in_flight = Some (0%nat, entry [L1; L2; L3] 0 true)
  ∧ pendingWrites dirty_in_flight = [("F.md", 1%nat)]
  ∧ pendingWrites (update dirty_in_flight) = [("F.md", 1%nat); ("F.md", 1%nat)]
  ∧ getCacheForFile "F.md" (update dirty_in_flight)
    = Some (0%nat, entry [L1; L2; L3] 1 false).
Proof. split_and!; vm_compute; reflexivity. Qed.

(** C5 at work, on the same state. *)
Lemma tick_writes_every_dirty_entry_witness :
  pendingWrites (update dirty_in_flight)
  = pendingWrites dirty_in_flight
    ++ omap (dirty_write (entries dirty_in_flight)) (cache dirty_in_flight)
  ∧ ∀ x fc, x ∈ cache dirty_in_flight → entries dirty_in_flight !! x = Some fc →
      entries (update dirty_in_flight) !! x = Some (tick_entry fc)
      ∧ (changed fc = true →
         ∃ ws1 ws2,
           pendingWrites (update dirty_in_flight)
           = pendingWrites dirty_in_flight ++ ws1 ++ (file fc, metadata fc) :: ws2).
Proof.
  apply tick_writes_every_dirty_entry. apply (wf_one _ 0%nat); vm_compute; eauto.
Defined.

(** C6 refuted: the write the tick issued fails; the entry is clean all the
    same, and the next tick does not write again.  Likewise a second
    [register], made after the read of the first failed, starts no read. *)
Lemma failed_write_is_dropped :
  let st1 := update dirty in
  let st2 := setFrontmatter_settled ("F.md", 1%nat) false st1 in
  let '(c, st3) := register "G.md" 4 ["a"] "L4" constructor in
  let st4 := cachedRead_rejected c "G.md" st3 in
  getCacheForFile "F.md" dirty = Some (0%nat, entry [L1; L2; L3] 0 true)
  ∧ pendingWrites st1 = [("F.md", 1%nat)]
  ∧ getCacheForFile "F.md" st2 = Some (0%nat, entry [L1; L2; L3] 1 false)
  ∧ pendingWrites (update st2) = []
  ∧ pendingReads st3 = [(c, "G.md")]
  ∧ pendingReads (register "G.md" 5 ["a"] "L5" st4).2 = [].
Proof. split_and!; vm_compute; reflexivity. Qed.

(** C6 at work: a failed write after a tick, a failed read after the
    registration of another document. *)
Lemma persistence_failure_not_retried_witness :
  (let st1 := setFrontmatter_settled ("F.md", 1%nat) false (update dirty) in
   calls st1 = calls dirty
   ∧ (∀ x fc, x ∈ cache dirty → entries dirty !! x = Some fc →
        changed <$> entries st1 !! x = Some false)
   ∧ pendingWrites (update st1) = pendingWrites st1)
  ∧ (let '(c, st1) := register "G.md" 4 ["a"] "L4" dirty in
     let st2 := cachedRead_rejected c "G.md" st1 in
     calls st2 = calls dirty
     ∧ getCacheForFile "G.md" st2
       = Some (c, mkFileCache "G.md" (JS.fresh_loc (objects dirty))
                    [mkListener 4 ["a"] "L4"] 0 false)
     ∧ objects st2 !! JS.fresh_loc (objects dirty) = Some JS.empty_object
     ∧ ∀ cb' mp' id',
         pendingReads (register "G.md" cb' mp' id' st2).2 = pendingReads st2).
Proof.
  apply (persistence_failure_not_retried "G.md" 4%nat ["a"] "L4" ("F.md", 1%nat) dirty).
  - apply (wf_one _ 0%nat); vm_compute; eauto.
  - vm_compute. reflexivity.
Defined.

(** C7 at work: [L3], the only listener, leaves; [L1] then registers. *)
Lemma unregister_last_then_register_witness :
  getCacheForFile "F.md" (unregister "F.md" "L3" single) = None
  ∧ let '(c, st2) := register "F.md" 1 ["a"; "b"] "L1" (unregister "F.md" "L3" single) in
    c ≠ 0%nat ∧ entries single !! c = None
    ∧ objects single !! JS.fresh_loc (objects single) = None
    ∧ getCacheForFile "F.md" st2
      = Some (c, mkFileCache "F.md" (JS.fresh_loc (objects single))
                   [mkListener 1 ["a"; "b"] "L1"] 0 false)
    ∧ objects st2 !! JS.fresh_loc (objects single) = Some JS.empty_object
    ∧ pendingReads st2 = pendingReads single ++ [(c, "F.md")]
    ∧ ∀ parsed,
        getCacheForFile "F.md" (cachedRead_resolved c "F.md" (Some parsed) st2)
        = Some (c, mkFileCache "F.md" parsed [mkListener 1 ["a"; "b"] "L1"] 0 false).
Proof.
  apply (unregister_last_then_register "F.md" 0%nat (entry [L3] 0 false) L3
           1%nat ["a"; "b"] "L1" single); vm_compute; reflexivity.
Defined.

(** C8 at work: three registrations for a document not yet in the cache:
    one read is begun. *)
Example register_sequence_run :
  let res := registerAll "F.md" [L1; L2; L3] constructor in
  res.1 = [0%nat; 0%nat; 0%nat]
  ∧ pendingReads res.2 = [(0%nat, "F.md")]
  ∧ (listeners <$> entries res.2 !! 0%nat) = Some [L1; L2; L3]
  ∧ calls res.2 = [].
Proof. split_and!; vm_compute; reflexivity. Qed.

(** * Beyond the claims: the manager *)

(** ** What every reachable manager satisfies *)

Lemma incr_range x : (0 ≤ x ≤ 2 ^ 53)%Z → (0 ≤ JS.incr x ≤ 2 ^ 53)%Z.
Proof.
  unfold JS.incr. change (2 ^ 53)%Z with 9007199254740992%Z.
  destruct (Z.ltb_spec x 9007199254740992); lia.
Qed.

Lemma find_file_None_paths E path (c : list nat) :
  find_file E path c = None → path ∉ omap (fun x => file <$> E !! x) c.
Proof.
  induction c as [|y r IH]; csimpl; [intros _; apply not_elem_of_nil|].
  destruct (E !! y) as [fy|]; csimpl; [|done].
  case_bool_decide as Hf; [done|]. intros Hr.
  apply not_elem_of_cons. split; [congruence|by apply IH].
Qed.

Lemma omap_ext_in {A B} (f g : A → option B) (l : list A) :
  (∀ x, x ∈ l → f x = g x) → omap f l = omap g l.
Proof.
  induction l as [|y r IH]; intros Hfg; csimpl; [done|].
  rewrite (Hfg y) by apply list_elem_of_here.
  rewrite IH; [done|]. intros x Hx. apply Hfg. by apply list_elem_of_further.
Qed.

Lemma elem_of_omap_List_filter {A B} (f : A → option B) (g : A → bool) (l : list A) b :
  b ∈ omap f (List.filter g l) → b ∈ omap f l.
Proof.
  intros (x & Hx & Hfx)%list_elem_of_omap. apply list_elem_of_omap.
  exists x. split; [by apply (elem_of_List_filter g)|done].
Qed.

Lemma NoDup_omap_List_filter {A B} (f : A → option B) (g : A → bool) (l : list A) :
  NoDup (omap f l) → NoDup (omap f (List.filter g l)).
Proof.
  induction l as [|y r IH]; csimpl; [done|].
  destruct (f y) as [b|] eqn:Hy.
  - intros [Hb Hr]%NoDup_cons. destruct (g y); csimpl; [|by apply IH].
    rewrite Hy. apply NoDup_cons. split; [|by apply IH].
    intros Hin. by apply Hb, (elem_of_omap_List_filter f g).
  - intros Hr. destruct (g y); csimpl; rewrite ?Hy; by apply IH.
Qed.

(** Two places of a list whose images are equal, in a list of images
    without repetition, are one place. *)
Lemma NoDup_omap_inj {A B} (f : A → option B) (l : list A) x y b :
  NoDup (omap f l) → x ∈ l → y ∈ l → f x = Some b → f y = Some b → x = y.
Proof.
  induction l as [|z r IH]; csimpl; [by intros _ ?%elem_of_nil|].
  intros Hnd Hx Hy Hfx Hfy.
  assert (∀ u, u ∈ r → f u = Some b → b ∈ omap f r) as Hin.
  { intros u Hu Hfu. apply list_elem_of_omap. by exists u. }
  apply elem_of_cons in Hx as [->|Hx], Hy as [->|Hy]; [done| | |].
  - rewrite Hfx in Hnd. apply NoDup_cons in Hnd as [Hb _]. destruct Hb. by apply (Hin y).
  - rewrite Hfy in Hnd. apply NoDup_cons in Hnd as [Hb _]. destruct Hb. by apply (Hin x).
  - apply IH; [|done..]. destruct (f z); [by apply NoDup_cons in Hnd as [_ ?]|done].
Qed.

(** The cache is as in [st], and every entry of it keeps its document, a
    listener if it had one, and a counter in range. *)
Lemma inv_frame st st' :
  cache st' = cache st →
  (∀ x fc, x ∈ cache st → entries st !! x = Some fc →
     ∃ fc', entries st' !! x = Some fc' ∧ file fc' = file fc
            ∧ (listeners fc ≠ [] → listeners fc' ≠ [])
            ∧ ((0 ≤ cyclesSinceLastUpdate fc ≤ 2 ^ 53)%Z →
               (0 ≤ cyclesSinceLastUpdate fc' ≤ 2 ^ 53)%Z)) →
  inv st → inv st'.
Proof.
  intros Hc HE ([Hnd Hsome] & Hpaths & Hls). split_and!.
  - split; rewrite Hc; [done|]. intros x Hx.
    destruct (Hsome x Hx) as [fc Hfc]. destruct (HE x fc Hx Hfc) as (fc' & -> & _).
    by eexists.
  - unfold cache_paths. rewrite Hc.
    rewrite (omap_ext_in _ (fun x => file <$> entries st !! x)); [done|].
    intros x Hx. destruct (Hsome x Hx) as [fc Hfc].
    destruct (HE x fc Hx Hfc) as (fc' & -> & Hfile & _). rewrite Hfc. simpl. by rewrite Hfile.
  - intros x fc' Hx Hfc'. rewrite Hc in Hx.
    destruct (Hsome x Hx) as [fc Hfc].
    destruct (HE x fc Hx Hfc) as (fc'' & Hfc'' & _ & Hl & Hr).
    assert (fc'' = fc') as -> by congruence.
    destruct (Hls x fc Hx Hfc) as [? ?]. split; [by apply Hl|by apply Hr].
Qed.

(** The cache is as in [st], and one entry was overwritten. *)
Lemma inv_overwrite st st' x fc fc' :
  cache st' = cache st →
  entries st' = <[x := fc']> (entries st) →
  entries st !! x = Some fc →
  file fc' = file fc →
  (listeners fc ≠ [] → listeners fc' ≠ []) →
  ((0 ≤ cyclesSinceLastUpdate fc ≤ 2 ^ 53)%Z → (0 ≤ cyclesSinceLastUpdate fc' ≤ 2 ^ 53)%Z) →
  inv st → inv st'.
Proof.
  intros Hc HE Hx Hfile Hl Hr. apply inv_frame; [done|].
  intros y fy _ Hy. rewrite HE. destruct (decide (x = y)) as [<-|Hne].
  - rewrite lookup_insert_eq. exists fc'. by simplify_eq.
  - rewrite lookup_insert_ne by done. by exists fy.
Qed.

(** A state that differs from another in its calls only. *)
Ltac inv_drop_notify :=
  match goal with
  | |- inv (notifyListeners ?a ?b ?c ?s) =>
      let cs := fresh "cs" in destruct (notifyListeners_frame a b c s) as [cs ->]
  end.

Lemma register_inv path cb mp id st : inv st → inv (register path cb mp id st).2.
Proof.
  intros Hinv. destruct (getCacheForFile path st) as [[fileCache fc]|] eqn:Hfind.
  - rewrite (register_existing _ _ _ _ _ _ _ Hfind). simpl.
    destruct (find_file_Some _ _ _ _ _ Hfind) as (HE & _).
    apply (inv_overwrite st _ fileCache fc
             (set_listeners (listeners fc ++ [mkListener cb mp id]) fc)); try done.
    simpl. intros _. by destruct (listeners fc).
  - destruct (register_new path cb mp id st Hfind) as (_ & _ & Hc & HE & _).
    destruct Hinv as (Hwf & Hpaths & Hls).
    assert (∀ x, x ∈ cache st → x ≠ fresh (dom (entries st))) as Hfresh.
    { intros x Hx ->. apply Hwf in Hx.
      by apply (elem_of_dom (D := gset nat)), is_fresh in Hx. }
    split_and!.
    + by apply register_wf.
    + unfold cache_paths. rewrite Hc, HE, omap_app. csimpl.
      rewrite lookup_insert_eq. csimpl.
      rewrite (omap_ext_in _ (fun x => file <$> entries st !! x)).
      * apply NoDup_app. split_and!; [done| |apply NoDup_singleton].
        intros p Hp ->%list_elem_of_singleton.
        by apply (find_file_None_paths _ _ _ Hfind).
      * intros x Hx. rewrite lookup_insert_ne; [done|]. intros Heq. by apply (Hfresh x).
    + intros x fc. rewrite Hc, HE.
      intros [Hx| ->%list_elem_of_singleton]%elem_of_app.
      * rewrite lookup_insert_ne by (intros Heq; by apply (Hfresh x)). by apply (Hls x).
      * rewrite lookup_insert_eq. intros [= <-]. simpl. split; [done|]. by compute.
Qed.

Lemma unregister_inv path id st : inv st → inv (unregister path id st).
Proof.
  intros Hinv. pose proof (unregister_wf path id st (proj1 Hinv)) as Hwf'.
  unfold unregister in *.
  destruct (getCacheForFile path st) as [[fileCache fc]|] eqn:Hfind; [|done].
  destruct (find_file_Some _ _ _ _ _ Hfind) as (HE & Hfile & _).
  set (ls := List.filter _ (listeners fc)) in *.
  set (st1 := with_entries _ st) in *.
  case_bool_decide as Hlen.
  - destruct Hinv as (Hwf & Hpaths & Hls).
    assert (∀ y, file <$> entries st1 !! y = file <$> entries st !! y) as Hfiles.
    { intros y. unfold st1. simpl. destruct (decide (fileCache = y)) as [<-|Hne].
      - by rewrite lookup_insert_eq, HE.
      - by rewrite lookup_insert_ne. }
    split_and!; [done| |].
    + unfold cache_paths. simpl.
      rewrite (omap_ext_in _ (fun x => file <$> entries st !! x)) by (intros; apply Hfiles).
      by apply NoDup_omap_List_filter.
    + simpl. intros y fy Hy Hfy.
      apply list_elem_of_In, List.filter_In in Hy as [Hy Hpath].
      apply list_elem_of_In in Hy.
      destruct (decide (fileCache = y)) as [<-|Hne].
      * unfold has_path, st1 in Hpath. simpl in Hpath.
        rewrite lookup_insert_eq in Hpath. simpl in Hpath.
        by rewrite (bool_decide_eq_true_2 _ Hfile) in Hpath.
      * rewrite lookup_insert_ne in Hfy by done. by apply (Hls y).
  - apply (inv_overwrite st _ fileCache fc (set_listeners ls fc)); try done.
    simpl. intros _ Hnil. by rewrite Hnil in Hlen.
Qed.

Lemma update_inv st : inv st → inv (update st).
Proof.
  intros Hinv. pose proof (proj1 Hinv) as Hwf.
  destruct (update_frame st Hwf) as (Hc & _).
  apply (inv_frame st); [done| |done].
  intros x fc Hx Hfc. exists (tick_entry fc). rewrite update_entries, Hfc by done.
  split_and!; [done..|]. apply incr_range.
Qed.

Lemma updateMetadataFileCache_inv metadata path id st :
  inv st → inv (updateMetadataFileCache metadata path id st).
Proof.
  intros Hinv. unfold updateMetadataFileCache.
  destruct (getCacheForFile path st) as [[fileCache fc]|] eqn:Hfind; [|done].
  destruct (find_file_Some _ _ _ _ _ Hfind) as (HE & _).
  inv_drop_notify.
  by apply (inv_overwrite st _ fileCache fc (set_cycles 0 (set_metadata metadata fc))).
Qed.

Lemma updateProperty_inv value pathParts path originId st :
  inv st → inv (updatePropertyInMetadataFileCache value pathParts path originId st).2.
Proof.
  intros Hinv. unfold updatePropertyInMetadataFileCache.
  destruct (getCacheForFile path st) as [[fileCache fc]|] eqn:Hfind; [|done].
  destruct (find_file_Some _ _ _ _ _ Hfind) as (HE & _).
  destruct (JS.strict_eq _ JS.VUndef); [done|].
  destruct (JS.strict_eq _ value); [done|].
  destruct (JS.set_prop _ _ _ _) as [h|]; [|done]. simpl.
  inv_drop_notify.
  by apply (inv_overwrite st _ fileCache fc (set_changed true (set_cycles 0 fc))).
Qed.

Lemma frontmatter_update_inv path frontmatter st :
  inv st → inv (updateMetadataFileCacheOnFrontmatterUpdate path frontmatter st).
Proof.
  intros Hinv. unfold updateMetadataFileCacheOnFrontmatterUpdate.
  destruct (getCacheForFile path st) as [[fileCache fc]|] eqn:Hfind; [|done].
  destruct (find_file_Some _ _ _ _ _ Hfind) as (HE & _).
  destruct (_ <? _)%Z; [done|].
  inv_drop_notify.
  by apply (inv_overwrite st _ fileCache fc
              (set_changed true (set_cycles 0 (set_metadata (JS.fresh_loc (objects st)) fc)))).
Qed.

Lemma cachedRead_resolved_inv c path parsed st :
  inv st → inv (cachedRead_resolved c path parsed st).
Proof.
  intros Hinv. unfold cachedRead_resolved. simpl.
  destruct (entries st !! c) as [fc|] eqn:HE.
  - inv_drop_notify.
    by apply (inv_overwrite st _ c fc
                (set_metadata (default (JS.fresh_loc (objects st)) parsed) fc)).
  - apply (inv_frame st); [done| |done]. intros x fc _ Hfc. by exists fc.
Qed.

Lemma step_inv st st' : step st st' → inv st → inv st'.
Proof.
  destruct 1; intros Hinv.
  - by apply register_inv.
  - by apply unregister_inv.
  - by apply update_inv.
  - by apply updateMetadataFileCache_inv.
  - by apply updateProperty_inv.
  - by apply frontmatter_update_inv.
  - by apply cachedRead_resolved_inv.
  - apply (inv_frame st); [done| |done]. intros x fc _ Hfc. by exists fc.
  - apply (inv_frame st); [done| |done]. intros x fc _ Hfc. by exists fc.
  - apply (inv_frame st); [done| |done]. intros x fc _ Hfc. by exists fc.
Qed.

Lemma reachable_inv st : reachable st → inv st.
Proof.
  unfold reachable. intros Hrtc.
  apply (rtc_ind_r (R := step) (fun s => inv s) constructor); [| |done].
  - split_and!; [apply wf_constructor|apply NoDup_nil_2|]. by intros x fc ?%elem_of_nil.
  - intros y z _ Hstep. by apply step_inv.
Qed.

(** X1: in every state the manager can reach, the cache holds at most one
    entry per document: two different entries of the cache are for different
    paths. *)
Theorem one_entry_per_document st x y fcx fcy :
  reachable st →
  x ∈ cache st → y ∈ cache st →
  entries st !! x = Some fcx → entries st !! y = Some fcy →
  x ≠ y →
  file fcx ≠ file fcy.
Proof.
  intros (_ & Hpaths & _)%reachable_inv Hx Hy Hfx Hfy Hne Hfile. apply Hne.
  apply (NoDup_omap_inj (fun z => file <$> entries st !! z) (cache st) x y (file fcx));
    try done.
  - by rewrite Hfx.
  - by rewrite Hfy, Hfile.
Qed.

(** X2: in every state the manager can reach, the entry found for a
    document has at least one listener, and its counter lies between 0 and
    2^53. *)
Theorem cached_entry_has_listener st path fileCache fc :
  reachable st →
  getCacheForFile path st = Some (fileCache, fc) →
  listeners fc ≠ [] ∧ (0 ≤ cyclesSinceLastUpdate fc ≤ 2 ^ 53)%Z.
Proof.
  intros (_ & _ & Hls)%reachable_inv Hfind.
  destruct (find_file_Some _ _ _ _ _ Hfind) as (HE & _ & Hin). by apply (Hls fileCache).
Qed.

(** ** Ticks, over time *)

Lemma incr_iter k c :
  (0 ≤ c ≤ 2 ^ 53)%Z → Nat.iter k JS.incr c = Z.min (c + Z.of_nat k) (2 ^ 53).
Proof.
  intros Hc. induction k as [|k IH].
  - simpl. lia.
  - rewrite Nat.iter_succ, IH. unfold JS.incr.
    change (2 ^ 53)%Z with 9007199254740992%Z in *.
    destruct (Z.ltb_spec (Z.min (c + Z.of_nat k) 9007199254740992) 9007199254740992); lia.
Qed.

Lemma tick_entry_iter k fc :
  Nat.iter k tick_entry fc
  = mkFileCache (file fc) (metadata fc) (listeners fc)
      (Nat.iter k JS.incr (cyclesSinceLastUpdate fc))
      (match k with O => changed fc | S _ => false end).
Proof.
  induction k as [|k IH]; [by destruct fc|].
  rewrite !Nat.iter_succ, IH. done.
Qed.

Lemma update_iter_frame k st :
  wf st →
  cache (Nat.iter k update st) = cache st
  ∧ objects (Nat.iter k update st) = objects st
  ∧ pendingReads (Nat.iter k update st) = pendingReads st
  ∧ calls (Nat.iter k update st) = calls st.
Proof.
  intros Hwf. induction k as [|k IH]; [done|]. rewrite Nat.iter_succ.
  destruct IH as (Hc & Ho & Hr & Hcl).
  destruct (update_frame (Nat.iter k update st)) as (Hc' & Ho' & Hr' & Hcl');
    [by apply update_iter_wf|].
  split_and!; congruence.
Qed.

(** X3: [k] ticks leave the data, the listeners and the trace of calls of
    an entry as they are, and no object of the store is touched; the entry's
    counter is its old value plus [k], but at most 2^53, and after at least
    one tick the entry is clean. *)
Theorem ticks_age_entry k path fileCache fc st :
  wf st →
  getCacheForFile path st = Some (fileCache, fc) →
  (0 ≤ cyclesSinceLastUpdate fc ≤ 2 ^ 53)%Z →
  getCacheForFile path (Nat.iter k update st)
  = Some (fileCache,
          mkFileCache (file fc) (metadata fc) (listeners fc)
            (Z.min (cyclesSinceLastUpdate fc + Z.of_nat k) (2 ^ 53))
            (match k with O => changed fc | S _ => false end))
  ∧ objects (Nat.iter k update st) = objects st
  ∧ calls (Nat.iter k update st) = calls st.
Proof.
  intros Hwf Hfind Hrange.
  destruct (update_iter_frame k st Hwf) as (_ & Ho & _ & Hcl).
  split_and!; [|done..].
  rewrite update_iter_getCacheForFile, Hfind by done. simpl.
  by rewrite tick_entry_iter, incr_iter.
Qed.

(** X4: the window in which external changes are dropped.  For an entry
    whose counter is [c], an external change that arrives after [k] ticks is
    discarded when [c + k < 5], and applied (new data, counter back to zero,
    entry dirty) when [c + k >= 5]. *)
Theorem echo_window k path fileCache fc frontmatter st :
  wf st →
  getCacheForFile path st = Some (fileCache, fc) →
  (0 ≤ cyclesSinceLastUpdate fc ≤ 2 ^ 53)%Z →
  let st_k := Nat.iter k update st in
  let st' := updateMetadataFileCacheOnFrontmatterUpdate path frontmatter st_k in
  ((cyclesSinceLastUpdate fc + Z.of_nat k < 5)%Z → st' = st_k)
  ∧ ((5 ≤ cyclesSinceLastUpdate fc + Z.of_nat k)%Z →
     getCacheForFile path st'
     = Some (fileCache,
             mkFileCache (file fc) (JS.fresh_loc (objects st)) (listeners fc) 0 true)).
Proof.
  intros Hwf Hfind Hrange st_k st'.
  assert (getCacheForFile path st_k
          = Some (fileCache, Nat.iter k tick_entry fc)) as Hfind_k.
  { unfold st_k. by rewrite update_iter_getCacheForFile, Hfind. }
  assert (cyclesSinceLastUpdate (Nat.iter k tick_entry fc)
          = Z.min (cyclesSinceLastUpdate fc + Z.of_nat k) (2 ^ 53)) as Hcycles.
  { by rewrite tick_entry_iter, <- incr_iter. }
  change (2 ^ 53)%Z with 9007199254740992%Z in *.
  split.
  - intros Hlt. apply (frontmatter_update_discarded _ _ _ _ _ Hfind_k).
    rewrite Hcycles. unfold updateCycleThreshold. lia.
  - intros Hge. unfold st'.
    rewrite (frontmatter_update_accepted _ _ _ _ _ Hfind_k)
      by (rewrite Hcycles; unfold updateCycleThreshold; lia).
    unfold getCacheForFile. simpl.
    destruct (find_file_Some _ _ _ _ _ Hfind_k) as (_ & Hfile & _).
    erewrite find_file_insert; [|exact Hfind_k|done].
    destruct (update_iter_frame k st Hwf) as (_ & Ho & _). fold st_k in Ho.
    rewrite Ho, tick_entry_iter. done.
Qed.

Lemma omap_nil_Forall {A B} (f : A → option B) (l : list A) :
  (∀ x, x ∈ l → f x = None) → omap f l = [].
Proof.
  induction l as [|y r IH]; intros Hf; csimpl; [done|].
  rewrite (Hf y) by apply list_elem_of_here. apply IH.
  intros x Hx. apply Hf. by apply list_elem_of_further.
Qed.

Lemma update_cleans st x :
  wf st → x ∈ cache (update st) → dirty_write (entries (update st)) x = None.
Proof.
  intros Hwf Hx. rewrite (proj1 (update_frame st Hwf)) in Hx.
  unfold dirty_write. rewrite update_entries by done.
  by destruct (entries st !! x).
Qed.

(** X5: once a tick has run, further ticks issue no write as long as
    nothing else happens: a change is written once. *)
Theorem later_ticks_write_nothing k st :
  wf st →
  pendingWrites (Nat.iter k update (update st)) = pendingWrites (update st).
Proof.
  intros Hwf.
  assert (wf (Nat.iter k update (update st))
          ∧ (∀ x, x ∈ cache (Nat.iter k update (update st)) →
               dirty_write (entries (Nat.iter k update (update st))) x = None)
          ∧ pendingWrites (Nat.iter k update (update st)) = pendingWrites (update st))
    as (_ & _ & Hw); [|done].
  induction k as [|k (Hwf_k & Hclean & Hw)].
  - split_and!; [by apply update_wf| |done]. intros x. by apply update_cleans.
  - rewrite Nat.iter_succ. split_and!.
    + by apply update_wf.
    + intros x. by apply update_cleans.
    + rewrite update_writes, Hw by done. rewrite omap_nil_Forall; [apply app_nil_r|done].
Qed.

Lemma find_file_is_Some E path (c : list nat) y fy :
  y ∈ c → E !! y = Some fy → file fy = path → is_Some (find_file E path c).
Proof.
  intros Hy Hfy Hfile. destruct (find_file E path c) as [r|] eqn:Hfind; [by eexists|].
  by destruct (find_file_None _ _ _ _ _ Hfind Hy Hfy).
Qed.

Lemma NoDup_fmap_omap {A B C} (f : A → option C) (g : A → option B) (h : B → C)
    (l : list A) :
  (∀ x b, g x = Some b → f x = Some (h b)) →
  NoDup (omap f l) → NoDup (h <$> omap g l).
Proof.
  intros Hfg. induction l as [|y r IH]; csimpl; [done|].
  destruct (g y) as [b|] eqn:Hgy; csimpl.
  - rewrite (Hfg y b Hgy). intros [Hb Hr]%NoDup_cons. apply NoDup_cons. split; [|by apply IH].
    intros (b' & Hhb & (x & Hx & Hgx)%list_elem_of_omap)%list_elem_of_fmap.
    apply Hb, list_elem_of_omap. exists x. split; [done|].
    rewrite (Hfg x b' Hgx). by rewrite Hhb.
  - destruct (f y); [intros [_ ?]%NoDup_cons|intros ?]; by apply IH.
Qed.

(** X6: in every state the manager can reach, a tick issues at most one
    write per document, and it issues one for a document exactly when the
    document has an entry and that entry is dirty. *)
Theorem tick_one_write_per_document st :
  reachable st →
  ∃ ws, pendingWrites (update st) = pendingWrites st ++ ws
        ∧ NoDup ws.*1
        ∧ ∀ path, path ∈ ws.*1
                  ↔ ∃ fileCache fc, getCacheForFile path st = Some (fileCache, fc)
                                    ∧ changed fc = true.
Proof.
  intros (Hwf & Hpaths & _)%reachable_inv.
  exists (omap (dirty_write (entries st)) (cache st)). split_and!.
  - by apply update_writes.
  - apply (NoDup_fmap_omap (fun x => file <$> entries st !! x)); [|done].
    intros x [p m]. unfold dirty_write.
    destruct (entries st !! x) as [fc|]; [|done].
    destruct (changed fc); [|done]. by intros [= <- <-].
  - intros path. split.
    + intros ([p m] & -> & (y & Hy & Hdw)%list_elem_of_omap)%list_elem_of_fmap.
      unfold dirty_write in Hdw. destruct (entries st !! y) as [fy|] eqn:Hfy; [|done].
      destruct (changed fy) eqn:Hdirty; [|done]. injection Hdw as <- <-. simpl.
      destruct (find_file_is_Some (entries st) (file fy) (cache st) y fy)
        as [[x fc] Hfind]; [done..|].
      destruct (find_file_Some _ _ _ _ _ Hfind) as (Hfc & Hfile & Hx).
      assert (x = y) as ->.
      { apply (NoDup_omap_inj (fun z => file <$> entries st !! z) (cache st) x y (file fy));
          try done.
        - rewrite Hfc. simpl. by rewrite Hfile.
        - by rewrite Hfy. }
      exists y, fc. split; [done|]. congruence.
    + intros (x & fc & Hfind & Hdirty).
      destruct (find_file_Some _ _ _ _ _ Hfind) as (Hfc & Hfile & Hx).
      apply list_elem_of_fmap. exists (path, metadata fc). split; [done|].
      apply list_elem_of_omap. exists x. split; [done|].
      unfold dirty_write. by rewrite Hfc, Hdirty, Hfile.
Qed.

(** X7: when the last listener of a document leaves, the document's entry
    goes with it, dirty or not: whatever ticks follow, none of the writes
    they issue is for that document.  A change that was waiting for the next
    tick is never written. *)
Theorem eviction_drops_pending_write k path fileCache fc id st :
  wf st →
  getCacheForFile path st = Some (fileCache, fc) →
  Forall (fun l => uuid l = id) (listeners fc) →
  ∃ ws, pendingWrites (Nat.iter k update (unregister path id st)) = pendingWrites st ++ ws
        ∧ ∀ w, w ∈ ws → w.1 ≠ path.
Proof.
  intros Hwf Hfind Hall.
  pose proof (unregister_wf path id st Hwf) as Hwf1.
  set (st1 := unregister path id st) in *.
  assert (∀ y fy, y ∈ cache st1 → entries st1 !! y = Some fy → file fy ≠ path) as Hgone.
  { unfold st1. rewrite (unregister_last _ _ _ _ _ Hfind Hall). simpl.
    intros y fy Hy Hfy. apply list_elem_of_In, List.filter_In in Hy as [_ Hpath].
    unfold has_path in Hpath. rewrite Hfy in Hpath. simpl in Hpath.
    by case_bool_decide. }
  assert (pendingWrites st1 = pendingWrites st) as <-.
  { unfold st1. by rewrite (unregister_last _ _ _ _ _ Hfind Hall). }
  clearbody st1. clear Hfind Hall Hwf.
  assert (wf (Nat.iter k update st1)
          ∧ (∀ y fy, y ∈ cache (Nat.iter k update st1) →
               entries (Nat.iter k update st1) !! y = Some fy → file fy ≠ path)
          ∧ ∃ ws, pendingWrites (Nat.iter k update st1) = pendingWrites st1 ++ ws
                  ∧ ∀ w, w ∈ ws → w.1 ≠ path) as (_ & _ & Hws); [|done].
  induction k as [|k (Hwf_k & Hgone_k & ws & Hw & Hws)].
  - split_and!; [done..|]. exists []. split; [by rewrite app_nil_r|].
    by intros w ?%elem_of_nil.
  - rewrite Nat.iter_succ. set (st_k := Nat.iter k update st1) in *.
    split_and!.
    + by apply update_wf.
    + intros y fy. rewrite (proj1 (update_frame st_k Hwf_k)). intros Hy.
      rewrite update_entries by done.
      destruct (entries st_k !! y) as [fy0|] eqn:Hfy0; [|done].
      intros [= <-]. by apply (Hgone_k y fy0).
    + exists (ws ++ omap (dirty_write (entries st_k)) (cache st_k)). split.
      * by rewrite update_writes, Hw, app_assoc.
      * intros w [Hin|Hin]%elem_of_app; [by apply Hws|].
        apply list_elem_of_omap in Hin as (y & Hy & Hdw). unfold dirty_write in Hdw.
        destruct (entries st_k !! y) as [fy|] eqn:Hfy; [|done].
        destruct (changed fy); [|done]. injection Hdw as <-. simpl.
        by apply (Hgone_k y fy).
Qed.

(** ** [unregister], [updateMetadataFileCache] and the read of [register] *)

Lemma List_filter_all {A} (g : A → bool) (l : list A) :
  Forall (fun x => g x = true) l → List.filter g l = l.
Proof. induction 1 as [|x l Hx _ IH]; simpl; [done|]. by rewrite Hx, IH. Qed.

Lemma List_filter_Forall {A} (g : A → bool) (l : list A) :
  Forall (fun x => g x = true) (List.filter g l).
Proof.
  induction l as [|x l IH]; simpl; [done|].
  destruct (g x) eqn:Hx; [by apply Forall_cons|done].
Qed.

(** [unregister] when a listener is left. *)
Lemma unregister_keep path fileCache fc id st :
  getCacheForFile path st = Some (fileCache, fc) →
  let ls := List.filter (fun x => negb (bool_decide (uuid x = id))) (listeners fc) in
  ls ≠ [] →
  unregister path id st
  = with_entries (<[fileCache := set_listeners ls fc]> (entries st)) st.
Proof.
  intros Hfind ls Hls. unfold unregister. rewrite Hfind. fold ls.
  rewrite bool_decide_eq_false_2; [done|]. by destruct ls.
Qed.

(** X8: [unregister(file, id)] removes every listener registered under
    [id] from the document's entry and leaves the other listeners in their
    order; when none is left the document has no entry any more.  It calls
    no listener and touches neither the data nor the pending reads and
    writes. *)
Theorem unregister_removes_id path fileCache fc id st :
  getCacheForFile path st = Some (fileCache, fc) →
  let ls := List.filter (fun x => negb (bool_decide (uuid x = id))) (listeners fc) in
  let st' := unregister path id st in
  Forall (fun x => uuid x ≠ id) ls
  ∧ getCacheForFile path st'
    = match ls with [] => None | _ => Some (fileCache, set_listeners ls fc) end
  ∧ objects st' = objects st ∧ calls st' = calls st
  ∧ pendingReads st' = pendingReads st ∧ pendingWrites st' = pendingWrites st.
Proof.
  intros Hfind ls st'. split.
  - eapply Forall_impl; [apply List_filter_Forall|]. simpl. intros x Hx.
    by apply negb_true_iff, bool_decide_eq_false in Hx.
  - destruct (find_file_Some _ _ _ _ _ Hfind) as (_ & Hfile & _).
    destruct ls as [|l ls'] eqn:Hls.
    + unfold st', unregister. rewrite Hfind. fold ls. rewrite Hls. simpl.
      split_and!; [|done..]. apply find_file_filtered.
    + unfold st'. rewrite (unregister_keep _ _ _ _ _ Hfind) by (fold ls; by rewrite Hls).
      fold ls. rewrite Hls. split_and!; [|done..].
      by apply (find_file_insert _ _ _ _ fc).
Qed.

(** X9: unregistering an id under which no listener of the document is
    registered changes nothing. *)
Theorem unregister_unknown_id path fileCache fc id st :
  getCacheForFile path st = Some (fileCache, fc) →
  listeners fc ≠ [] →
  Forall (fun x => uuid x ≠ id) (listeners fc) →
  unregister path id st = st.
Proof.
  intros Hfind Hne Hall.
  assert (List.filter (fun x => negb (bool_decide (uuid x = id))) (listeners fc)
          = listeners fc) as Hfilter.
  { apply List_filter_all. eapply Forall_impl; [exact Hall|]. simpl. intros x Hx.
    by rewrite bool_decide_eq_false_2. }
  rewrite (unregister_keep _ _ _ _ _ Hfind) by by rewrite Hfilter.
  destruct (find_file_Some _ _ _ _ _ Hfind) as (HE & _).
  rewrite Hfilter, set_listeners_id, insert_id by done. apply with_entries_id.
Qed.

(** X10: on a document that has an entry, registering a listener under an
    id not in use there and unregistering that id again gives back the very
    same state. *)
Theorem register_unregister path fileCache fc cb mp id st :
  getCacheForFile path st = Some (fileCache, fc) →
  listeners fc ≠ [] →
  Forall (fun x => uuid x ≠ id) (listeners fc) →
  unregister path id (register path cb mp id st).2 = st.
Proof.
  intros Hfind Hne Hall.
  destruct (find_file_Some _ _ _ _ _ Hfind) as (HE & Hfile & _).
  rewrite (register_existing _ _ _ _ _ _ _ Hfind). simpl.
  set (fc1 := set_listeners (listeners fc ++ [mkListener cb mp id]) fc).
  assert (List.filter (fun x => negb (bool_decide (uuid x = id))) (listeners fc1)
          = listeners fc) as Hfilter.
  { simpl. rewrite List.filter_app. simpl. rewrite bool_decide_eq_true_2 by done. simpl.
    rewrite app_nil_r. apply List_filter_all.
    eapply Forall_impl; [exact Hall|]. simpl. intros x Hx.
    by rewrite bool_decide_eq_false_2. }
  rewrite (unregister_keep path fileCache fc1).
  - rewrite Hfilter. simpl. rewrite insert_insert_eq.
    change (set_listeners (listeners fc) fc1) with (set_listeners (listeners fc) fc).
    rewrite set_listeners_id, insert_id by done. by destruct st.
  - by apply (find_file_insert _ _ _ _ fc).
  - by rewrite Hfilter.
Qed.

(** X11: [updateMetadataFileCache] makes [metadata] the data of the
    document's entry and resets its counter, but leaves the dirty flag as it
    is: a clean entry stays clean.  Every listener is called, in order, with
    the value at its own path in the new data, but for the listeners
    registered under the [uuid] passed along when that is a non-empty
    string; an absent or empty [uuid] excludes no listener. *)
Theorem replace_all metadata path fileCache fc originId st :
  getCacheForFile path st = Some (fileCache, fc) →
  let st' := updateMetadataFileCache metadata path originId st in
  let called := filter (kept originId) (listeners fc) in
  getCacheForFile path st'
  = Some (fileCache,
          mkFileCache (file fc) metadata (listeners fc) 0 (changed fc))
  ∧ objects st' = objects st
  ∧ pendingWrites st' = pendingWrites st
  ∧ calls st'
    = calls st
      ++ map (fun l => (onCacheUpdate l,
                         traverseObjectByPath (objects st) (metadataPath l)
                           (JS.VRef metadata)))
           called
  ∧ (originId = None ∨ originId = Some "" → called = listeners fc)
  ∧ (∀ o, originId = Some o → o ≠ "" →
       called = filter (fun l => uuid l ≠ o) (listeners fc)).
Proof.
  intros Hfind st' called.
  destruct (find_file_Some _ _ _ _ _ Hfind) as (_ & Hfile & _).
  unfold st', updateMetadataFileCache. rewrite Hfind.
  rewrite (notifyListeners_kept fileCache (set_cycles 0 (set_metadata metadata fc)))
    by apply lookup_insert_eq.
  simpl. split_and!; [|done|done|done| |].
  - by apply (find_file_insert _ _ _ _ fc).
  - intros Horigin. unfold called.
    induction (listeners fc) as [|x ls IH]; [done|].
    rewrite filter_cons_True; [by rewrite IH|]. unfold kept. destruct Horigin; auto.
  - intros o -> Ho. unfold called. apply list_filter_iff. intros x. unfold kept. split.
    + intros [?|[?|Hu]]; [done|congruence|]. congruence.
    + intros Hu. right; right. congruence.
Qed.

Lemma traverse_undef h pathParts : traverseObjectByPath h pathParts JS.VUndef = JS.VUndef.
Proof. induction pathParts as [|k r IH]; [done|]. exact IH. Qed.

(** A path that is not empty leads nowhere in an empty object. *)
Lemma traverse_empty_object h m pathParts :
  h !! m = Some JS.empty_object → pathParts ≠ [] →
  traverseObjectByPath h pathParts (JS.VRef m) = JS.VUndef.
Proof.
  intros Hm Hne. destruct pathParts as [|k r]; [done|].
  unfold traverseObjectByPath. simpl. rewrite Hm. simpl.
  rewrite lookup_empty. apply traverse_undef.
Qed.

(** X12: when the read begun by [register] resolves with data, the data
    becomes the entry's, whatever was set in the meantime, and every
    listener is called, in order, with the value at its own path; the
    entry's dirty flag and counter stay as they are. *)
Theorem read_resolved c path fc m st :
  entries st !! c = Some fc →
  let st' := cachedRead_resolved c path (Some m) st in
  entries st' = <[c := mkFileCache (file fc) m (listeners fc)
                         (cyclesSinceLastUpdate fc) (changed fc)]> (entries st)
  ∧ cache st' = cache st ∧ objects st' = objects st
  ∧ pendingWrites st' = pendingWrites st
  ∧ calls st'
    = calls st
      ++ map (fun l => (onCacheUpdate l,
                         traverseObjectByPath (objects st) (metadataPath l) (JS.VRef m)))
           (listeners fc).
Proof.
  intros HE st'. unfold st', cachedRead_resolved. simpl. rewrite HE. simpl.
  by rewrite (notifyListeners_all c (set_metadata m fc)) by apply lookup_insert_eq.
Qed.

(** X13: when the read resolves without data (the file has no
    frontmatter), the entry gets a new empty object, and every listener is
    called, in order: with [undefined] if its path is not empty, with the
    new object itself if its path is empty. *)
Theorem read_resolved_without_data c path fc st :
  entries st !! c = Some fc →
  let st' := cachedRead_resolved c path None st in
  let m := JS.fresh_loc (objects st) in
  objects st !! m = None
  ∧ objects st' = <[m := JS.empty_object]> (objects st)
  ∧ entries st' !! c = Some (set_metadata m fc)
  ∧ calls st'
    = calls st
      ++ map (fun l => (onCacheUpdate l,
                         match metadataPath l with
                         | [] => JS.VRef m
                         | _ :: _ => JS.VUndef
                         end))
           (listeners fc).
Proof.
  intros HE st' m. unfold st', cachedRead_resolved. simpl. rewrite HE. simpl.
  rewrite (notifyListeners_all c (set_metadata m fc)) by apply lookup_insert_eq.
  simpl. split_and!; [apply fresh_loc_None|done|apply lookup_insert_eq|].
  f_equal. induction (listeners fc) as [|l ls IH]; simpl; [done|].
  rewrite IH. do 2 f_equal. destruct (metadataPath l) as [|k r] eqn:Hp; [done|].
  apply traverse_empty_object; [apply lookup_insert_eq|done].
Qed.

Lemma find_file_insert_notin E path (c : list nat) x fc :
  x ∉ c → find_file (<[x := fc]> E) path c = find_file E path c.
Proof.
  induction c as [|y r IH]; simpl; [done|]. intros [Hne Hr]%not_elem_of_cons.
  rewrite lookup_insert_ne by done. rewrite IH by done. done.
Qed.

(** The read of an entry that is not in the cache and has no listener. *)
Lemma detached_read c path fc parsed st :
  entries st !! c = Some fc → listeners fc = [] → c ∉ cache st →
  let st' := cachedRead_resolved c path parsed st in
  calls st' = calls st ∧ ∀ p, getCacheForFile p st' = getCacheForFile p st.
Proof.
  intros HE Hls Hout st'. unfold st', cachedRead_resolved. simpl. rewrite HE. simpl.
  rewrite (notifyListeners_all c
             (set_metadata (default (JS.fresh_loc (objects st)) parsed) fc))
    by apply lookup_insert_eq.
  simpl. rewrite Hls. simpl. split; [apply app_nil_r|].
  intros p. unfold getCacheForFile. simpl. by apply find_file_insert_notin.
Qed.

(** X14: a read that resolves after its entry has left the cache (the
    last listener unregistered while the read was pending) calls no listener
    and is not seen by any lookup: it does not bring the entry back, and
    when a [register] has created a new entry for the document in the
    meantime, that entry is not touched. *)
Theorem late_read_is_not_seen path fileCache fc id parsed cb mp id' st :
  getCacheForFile path st = Some (fileCache, fc) →
  Forall (fun l => uuid l = id) (listeners fc) →
  let st1 := unregister path id st in
  let st2 := (register path cb mp id' st1).2 in
  (calls (cachedRead_resolved fileCache path parsed st1) = calls st1
   ∧ ∀ p, getCacheForFile p (cachedRead_resolved fileCache path parsed st1)
          = getCacheForFile p st1)
  ∧ (calls (cachedRead_resolved fileCache path parsed st2) = calls st2
     ∧ ∀ p, getCacheForFile p (cachedRead_resolved fileCache path parsed st2)
            = getCacheForFile p st2).
Proof.
  intros Hfind Hall st1 st2.
  destruct (find_file_Some _ _ _ _ _ Hfind) as (HE & Hfile & _).
  assert (st1 = with_cache
                  (List.filter
                     (fun x => negb (has_path (<[fileCache := set_listeners [] fc]> (entries st))
                                       path x)) (cache st))
                  (with_entries (<[fileCache := set_listeners [] fc]> (entries st)) st))
    as Hst1 by by apply unregister_last.
  assert (fileCache ∉ cache st1) as Hout.
  { rewrite Hst1. simpl. intros Hin.
    apply list_elem_of_In, List.filter_In in Hin as [_ Hpath].
    unfold has_path in Hpath. rewrite lookup_insert_eq in Hpath. simpl in Hpath.
    by rewrite (bool_decide_eq_true_2 _ Hfile) in Hpath. }
  assert (entries st1 !! fileCache = Some (set_listeners [] fc)) as HE1.
  { rewrite Hst1. simpl. apply lookup_insert_eq. }
  split; [by apply (detached_read _ _ (set_listeners [] fc))|].
  assert (getCacheForFile path st1 = None) as Hnone.
  { rewrite Hst1. apply find_file_filtered. }
  destruct (register_new path cb mp id' st1 Hnone) as (_ & _ & Hc & HE2 & _).
  fold st2 in Hc, HE2.
  assert (fileCache ≠ fresh (dom (entries st1))) as Hfresh.
  { intros Heq. assert (fileCache ∈ dom (entries st1)) as Hdom by by apply elem_of_dom.
    rewrite Heq in Hdom. by apply is_fresh in Hdom. }
  apply (detached_read _ _ (set_listeners [] fc)); [|done|].
  - rewrite HE2. by rewrite lookup_insert_ne.
  - rewrite Hc. intros [?| ->%list_elem_of_singleton]%elem_of_app; done.
Qed.

(** ** Documents do not interfere *)

Lemma fresh_entry_None (E : gmap nat MetadataFileCache) : E !! fresh (dom E) = None.
Proof. apply (not_elem_of_dom (D := gset nat)), is_fresh. Qed.

Lemma find_file_insert_other E path (c : list nat) x fc' :
  (∀ fc, E !! x = Some fc → file fc ≠ path) → file fc' ≠ path →
  find_file (<[x := fc']> E) path c = find_file E path c.
Proof.
  intros Hold Hnew. induction c as [|y r IH]; simpl; [done|].
  destruct (decide (x = y)) as [<-|Hne].
  - rewrite lookup_insert_eq, (bool_decide_eq_false_2 _ Hnew), IH.
    destruct (E !! x) as [fc|] eqn:Hx; [|done].
    by rewrite (bool_decide_eq_false_2 _ (Hold fc eq_refl)).
  - by rewrite lookup_insert_ne, IH.
Qed.

Lemma find_file_app_None E path (c1 c2 : list nat) :
  find_file E path c2 = None → find_file E path (c1 ++ c2) = find_file E path c1.
Proof.
  intros Hnone. induction c1 as [|y r IH]; simpl; [done|].
  destruct (E !! y) as [fy|]; [|done]. by case_bool_decide.
Qed.

Lemma find_file_filter_other E path path' (c : list nat) :
  path' ≠ path →
  find_file E path' (List.filter (fun x => negb (has_path E path x)) c) = find_file E path' c.
Proof.
  intros Hne. induction c as [|y r IH]; simpl; [done|]. unfold has_path at 1.
  destruct (E !! y) as [fy|] eqn:Hy; simpl; [|by rewrite Hy].
  case_bool_decide as Hf; simpl.
  - rewrite IH. rewrite bool_decide_eq_false_2; [done|]. congruence.
  - by rewrite Hy, IH.
Qed.

(** X22: what is done for one document leaves the entry of every other
    document as it is: after [register], [unregister],
    [updatePropertyInMetadataFileCache], [updateMetadataFileCache] or an
    external change for [path], the lookup of any other path finds what it
    found before. *)
Theorem other_documents_untouched path path' cb mp id value pathParts originId metadata
    frontmatter st :
  path' ≠ path →
  getCacheForFile path' (register path cb mp id st).2 = getCacheForFile path' st
  ∧ getCacheForFile path' (unregister path id st) = getCacheForFile path' st
  ∧ getCacheForFile path'
      (updatePropertyInMetadataFileCache value pathParts path originId st).2
    = getCacheForFile path' st
  ∧ getCacheForFile path' (updateMetadataFileCache metadata path originId st)
    = getCacheForFile path' st
  ∧ getCacheForFile path' (updateMetadataFileCacheOnFrontmatterUpdate path frontmatter st)
    = getCacheForFile path' st.
Proof.
  intros Hne.
  assert (∀ fileCache fc fc' s,
            getCacheForFile path st = Some (fileCache, fc) → file fc' = path →
            cache s = cache st → entries s = <[fileCache := fc']> (entries st) →
            getCacheForFile path' s = getCacheForFile path' st) as Hoverwrite.
  { intros fileCache fc fc' s Hfind Hfile Hc HE.
    destruct (find_file_Some _ _ _ _ _ Hfind) as (Hfc & Hfile0 & _).
    unfold getCacheForFile. rewrite Hc, HE. apply find_file_insert_other.
    - intros fc0 Hfc0. assert (fc0 = fc) as -> by congruence. congruence.
    - congruence. }
  split_and!.
  - destruct (getCacheForFile path st) as [[fileCache fc]|] eqn:Hfind.
    + rewrite (register_existing _ _ _ _ _ _ _ Hfind). simpl.
      destruct (find_file_Some _ _ _ _ _ Hfind) as (_ & Hfile & _).
      by apply (Hoverwrite fileCache fc
                  (set_listeners (listeners fc ++ [mkListener cb mp id]) fc)).
    + destruct (register_new path cb mp id st Hfind) as (_ & _ & Hc & HE & _).
      unfold getCacheForFile. rewrite Hc, HE.
      rewrite find_file_app_None.
      * apply find_file_insert_other; [|by simpl].
        intros fc Hfc. by rewrite (fresh_entry_None (entries st)) in Hfc.
      * simpl. rewrite lookup_insert_eq. simpl. by rewrite bool_decide_eq_false_2.
  - unfold unregister.
    destruct (getCacheForFile path st) as [[fileCache fc]|] eqn:Hfind; [|done].
    destruct (find_file_Some _ _ _ _ _ Hfind) as (_ & Hfile & _).
    set (ls := List.filter _ (listeners fc)).
    assert (getCacheForFile path'
              (with_entries (<[fileCache := set_listeners ls fc]> (entries st)) st)
            = getCacheForFile path' st) as Hst1
      by by apply (Hoverwrite fileCache fc (set_listeners ls fc)).
    case_bool_decide; [|done]. rewrite <- Hst1.
    unfold getCacheForFile. simpl. by apply find_file_filter_other.
  - unfold updatePropertyInMetadataFileCache.
    destruct (getCacheForFile path st) as [[fileCache fc]|] eqn:Hfind; [|done].
    destruct (find_file_Some _ _ _ _ _ Hfind) as (_ & Hfile & _).
    destruct (JS.strict_eq _ JS.VUndef); [done|].
    destruct (JS.strict_eq _ value); [done|].
    destruct (JS.set_prop _ _ _ _) as [h|]; [|done]. simpl.
    match goal with
    | |- getCacheForFile _ (notifyListeners ?a ?b ?c ?s) = _ =>
        destruct (notifyListeners_frame a b c s) as [cs ->]
    end.
    by apply (Hoverwrite fileCache fc (set_changed true (set_cycles 0 fc))).
  - unfold updateMetadataFileCache.
    destruct (getCacheForFile path st) as [[fileCache fc]|] eqn:Hfind; [|done].
    destruct (find_file_Some _ _ _ _ _ Hfind) as (_ & Hfile & _).
    match goal with
    | |- getCacheForFile _ (notifyListeners ?a ?b ?c ?s) = _ =>
        destruct (notifyListeners_frame a b c s) as [cs ->]
    end.
    by apply (Hoverwrite fileCache fc (set_cycles 0 (set_metadata metadata fc))).
  - unfold updateMetadataFileCacheOnFrontmatterUpdate.
    destruct (getCacheForFile path st) as [[fileCache fc]|] eqn:Hfind; [|done].
    destruct (find_file_Some _ _ _ _ _ Hfind) as (_ & Hfile & _).
    destruct (_ <? _)%Z; [done|].
    match goal with
    | |- getCacheForFile _ (notifyListeners ?a ?b ?c ?s) = _ =>
        destruct (notifyListeners_frame a b c s) as [cs ->]
    end.
    by apply (Hoverwrite fileCache fc
                (set_changed true (set_cycles 0 (set_metadata (JS.fresh_loc (objects st)) fc)))).
Qed.

(** * Beyond the claims: the input field *)

(** ** The queue of values *)

Lemma updateAll_bound values rc :
  ValueQueue.isBound rc = true →
  ValueQueue.updateAll values rc
  = ValueQueue.with_queue (ValueQueue.valueQueue rc ++ values) rc.
Proof.
  revert rc. induction values as [|v vs IH]; intros rc Hb; simpl.
  - rewrite app_nil_r. by destruct rc.
  - unfold ValueQueue.updateAll in *. simpl. unfold ValueQueue.updateMetaData at 2.
    rewrite Hb, IH by done. simpl. unfold ValueQueue.with_queue. simpl.
    by rewrite <- app_assoc.
Qed.

Lemma last_snoc_Some {A} (q : list A) (v : A) :
  List.last (map Some (q ++ [v])) None = Some v.
Proof. rewrite List.map_app. simpl. apply last_last. Qed.

Lemma incrementInterval_snoc rc q v :
  ValueQueue.valueQueue rc = q ++ [v] →
  ValueQueue.incrementInterval rc
  = (true,
     ValueQueue.mkRenderChild (ValueQueue.isBound rc) (ValueQueue.bindTargetMetadataField rc)
       (ValueQueue.file rc) (q ++ [v])
       (ValueQueue.written rc
        ++ [(ValueQueue.bindTargetMetadataField rc, v, ValueQueue.file rc)])).
Proof.
  intros Hq. unfold ValueQueue.incrementInterval. by rewrite Hq, last_snoc_Some.
Qed.

(** X15: however many values a bound input field queues between two
    turns of its interval, the interval hands one value to the plugin, the
    last one; once that write is fulfilled the queue is empty and the next
    turn writes nothing. *)
Theorem burst_writes_last_value values v rc :
  ValueQueue.isBound rc = true →
  let rc1 := ValueQueue.updateAll (values ++ [v]) rc in
  let rc2 := (ValueQueue.incrementInterval rc1).2 in
  let rc3 := ValueQueue.incrementInterval_resumed true rc2 in
  ValueQueue.written rc2
  = ValueQueue.written rc
    ++ [(ValueQueue.bindTargetMetadataField rc, v, ValueQueue.file rc)]
  ∧ ValueQueue.valueQueue rc3 = []
  ∧ ValueQueue.incrementInterval rc3 = (false, rc3).
Proof.
  intros Hb rc1 rc2 rc3.
  assert (rc1 = ValueQueue.with_queue (ValueQueue.valueQueue rc ++ values ++ [v]) rc) as Hrc1
    by by apply updateAll_bound.
  unfold rc3, rc2.
  rewrite (incrementInterval_snoc rc1 (ValueQueue.valueQueue rc ++ values) v)
    by (rewrite Hrc1; simpl; by rewrite app_assoc).
  rewrite Hrc1. done.
Qed.


(** X17: as long as no write is fulfilled, every turn of the interval
    hands the last value of the queue to the plugin again: after [n] turns,
    during a write or after a rejected one, the value has been written [n]
    times and is still queued. *)
Theorem unfulfilled_write_is_repeated n q v rc :
  ValueQueue.valueQueue rc = q ++ [v] →
  let turn r :=
    ValueQueue.incrementInterval_resumed false (ValueQueue.incrementInterval r).2 in
  ValueQueue.written (Nat.iter n turn rc)
  = ValueQueue.written rc
    ++ replicate n (ValueQueue.bindTargetMetadataField rc, v, ValueQueue.file rc)
  ∧ ValueQueue.valueQueue (Nat.iter n turn rc) = q ++ [v].
Proof.
  intros Hq turn.
  assert (ValueQueue.written (Nat.iter n turn rc)
          = ValueQueue.written rc
            ++ replicate n (ValueQueue.bindTargetMetadataField rc, v, ValueQueue.file rc)
          ∧ ValueQueue.valueQueue (Nat.iter n turn rc) = q ++ [v]
          ∧ ValueQueue.bindTargetMetadataField (Nat.iter n turn rc)
            = ValueQueue.bindTargetMetadataField rc
          ∧ ValueQueue.file (Nat.iter n turn rc) = ValueQueue.file rc)
    as (? & ? & _); [|done].
  induction n as [|n (Hw & Hq_n & Hf & Hfile)].
  - simpl. by rewrite app_nil_r.
  - rewrite Nat.iter_succ. unfold turn at 1 3 5 7.
    rewrite (incrementInterval_snoc _ q v Hq_n). simpl.
    rewrite Hw, Hf, Hfile, <- app_assoc. split_and!; [|done..].
    f_equal. change (?x :: replicate n ?x) with (replicate (S n) x).
    by rewrite replicate_S_end.
Qed.

(** X18: an input field that is not bound queues nothing and writes
    nothing, whatever values it is given. *)
Theorem unbound_field_never_writes values rc :
  ValueQueue.isBound rc = false →
  ValueQueue.valueQueue rc = [] →
  ValueQueue.incrementInterval (ValueQueue.updateAll values rc) = (false, rc).
Proof.
  intros Hb Hq.
  assert (ValueQueue.updateAll values rc = rc) as ->.
  { induction values as [|v vs IH]; [done|].
    unfold ValueQueue.updateAll in *. simpl. unfold ValueQueue.updateMetaData at 2.
    by rewrite Hb. }
  unfold ValueQueue.incrementInterval. by rewrite Hq.
Qed.

(** ** The bind target *)

Lemma split_length c s : length (BindTarget.split c s) = S (BindTarget.occurrences c s).
Proof.
  induction s as [|a r IH]; simpl; [done|].
  destruct (Ascii.eqb a c); simpl; [by rewrite IH|].
  destruct (BindTarget.split c r); simpl in *; [done|by rewrite IH].
Qed.

Lemma split_single c s b : BindTarget.split c s = [b] → s = b.
Proof.
  revert b. induction s as [|a r IH]; intros b; simpl; [by intros [= <-]|].
  destruct (Ascii.eqb a c).
  - intros [= _ Hr]. pose proof (split_length c r) as Hlen. rewrite Hr in Hlen.
    simpl in Hlen. lia.
  - destruct (BindTarget.split c r) as [|h t] eqn:Hr.
    { pose proof (split_length c r) as Hlen. rewrite Hr in Hlen. simpl in Hlen. lia. }
    intros [= <- ->]. by rewrite (IH h).
Qed.

(** Two pieces, put together again around the separator. *)
Lemma split_pair c s a b :
  BindTarget.split c s = [a; b] → s = String.append a (String c b).
Proof.
  revert a. induction s as [|x r IH]; intros a; simpl; [done|].
  destruct (Ascii.eqb_spec x c) as [->|Hne].
  - intros [= <- Hr]. simpl. by rewrite (split_single _ _ _ Hr).
  - destruct (BindTarget.split c r) as [|h t] eqn:Hr; [done|].
    intros [= <- ->]. simpl. by rewrite (IH h).
Qed.

(** X19: when [parseBindTarget] returns without an error, both the file
    and the metadata field are set; the bind target holds no [#], the file
    being the one of the note itself and the field the whole target, or
    exactly one [#], the target being the file name, [#], and the field; the
    name resolves to exactly that one file, and [validateObjectPath] has not
    thrown an [Error] for the field. *)
Theorem parseBindTarget_success validateObjectPath getFilesByName bindTarget filePath t t' :
  BindTarget.parseBindTarget validateObjectPath getFilesByName (Some bindTarget) filePath t
  = (None, t') →
  ∃ fileName fieldName f,
    t' = BindTarget.mkTarget (Some f) (Some fieldName)
    ∧ getFilesByName fileName = [f]
    ∧ (∀ message, validateObjectPath fieldName ≠ BindTarget.ThrowsError message)
    ∧ ((BindTarget.occurrences "#" bindTarget = 0%nat
        ∧ fileName = filePath ∧ fieldName = bindTarget)
       ∨ (BindTarget.occurrences "#" bindTarget = 1%nat
          ∧ bindTarget = String.append fileName (String "#" fieldName))).
Proof.
  unfold BindTarget.parseBindTarget. intros Hparse.
  pose proof (split_length "#" bindTarget) as Hlen.
  destruct (BindTarget.split "#" bindTarget) as [|a [|b [|? ?]]] eqn:Hsplit; try done.
  - destruct (validateObjectPath bindTarget) eqn:Hv; try done;
      destruct (getFilesByName filePath) as [|f [|? ?]] eqn:Hf; try done;
      injection Hparse as <-; exists filePath, bindTarget, f;
      (split_and!; [done|done|by rewrite Hv|]); left; simpl in Hlen; by split_and!; try lia.
  - destruct (validateObjectPath b) eqn:Hv; try done;
      destruct (getFilesByName a) as [|f [|? ?]] eqn:Hf; try done;
      injection Hparse as <-; exists a, b, f;
      (split_and!; [done|done|by rewrite Hv|]); right; simpl in Hlen;
      (split; [lia|by apply split_pair]).
Qed.

(** X20: a bind target with two or more [#] is refused before anything is
    assigned, whatever the field and the files are. *)
Theorem parseBindTarget_too_many_hashes validateObjectPath getFilesByName bindTarget
    filePath t :
  (2 ≤ BindTarget.occurrences "#" bindTarget)%nat →
  BindTarget.parseBindTarget validateObjectPath getFilesByName (Some bindTarget) filePath t
  = (Some BindTarget.TooManyHashes, t).
Proof.
  intros Hocc. unfold BindTarget.parseBindTarget.
  pose proof (split_length "#" bindTarget) as Hlen.
  destruct (BindTarget.split "#" bindTarget) as [|a [|b [|? ?]]]; simpl in Hlen; try lia.
  done.
Qed.

(** X21: an error of [parseBindTarget] never assigns the file; the
    errors raised before the file is looked up (no declaration, too many
    [#], an invalid path) assign nothing at all, the two raised by the
    lookup leave the field assigned. *)
Theorem parseBindTarget_error validateObjectPath getFilesByName declaration filePath t e t' :
  BindTarget.parseBindTarget validateObjectPath getFilesByName declaration filePath t
  = (Some e, t') →
  BindTarget.bindTargetFile t' = BindTarget.bindTargetFile t
  ∧ match e with
    | BindTarget.FileNotFound | BindTarget.MultipleFiles =>
        is_Some (BindTarget.bindTargetMetadataField t')
    | _ => t' = t
    end.
Proof.
  unfold BindTarget.parseBindTarget. intros Hparse.
  destruct declaration as [bindTarget|]; [|by injection Hparse as <- <-].
  destruct (BindTarget.split "#" bindTarget) as [|a [|b [|? ?]]];
    try by injection Hparse as <- <-.
  - destruct (validateObjectPath bindTarget); try (by injection Hparse as <- <-);
      destruct (getFilesByName filePath) as [|f [|? ?]]; try done;
      injection Hparse as <- <-; simpl; by eauto.
  - destruct (validateObjectPath b); try (by injection Hparse as <- <-);
      destruct (getFilesByName a) as [|f [|? ?]]; try done;
      injection Hparse as <- <-; simpl; by eauto.
Qed.

(** * The scenario, run further *)

Lemma registerAll_steps path rs st : rtc step st (registerAll path rs st).2.
Proof.
  revert st. induction rs as [|r rs IH]; intros st; simpl; [done|].
  pose proof (step_register path (onCacheUpdate r) (metadataPath r) (uuid r) st) as Hstep.
  destruct (register path (onCacheUpdate r) (metadataPath r) (uuid r) st) as [c st1].
  pose proof (IH st1) as Hrest. destruct (registerAll path rs st1) as [cs st2].
  simpl in *. by eapply rtc_l.
Qed.

(** The objects of the scenario are made one by one. *)
Lemma store_steps : rtc step constructor (with_objects store constructor).
Proof.
  unfold store.
  repeat match goal with
  | |- rtc step _ (with_objects (<[?l := ?ob]> ?h) constructor) =>
      apply (rtc_r _ (with_objects h constructor));
      [|apply (step_environment l ob (with_objects h constructor)); vm_compute; reflexivity]
  | |- rtc step _ (with_objects {[?l := ?ob]} constructor) =>
      apply rtc_once; apply (step_environment l ob constructor); vm_compute; reflexivity
  end.
Qed.

Lemma loaded_reachable ls : reachable (loaded ls).
Proof.
  unfold reachable, loaded.
  eapply rtc_r; [|apply step_read_resolved].
  eapply rtc_trans; [apply store_steps|apply registerAll_steps].
Qed.

Lemma dirty_in_flight_reachable : reachable dirty_in_flight.
Proof.
  unfold reachable, dirty_in_flight, dirty.
  eapply rtc_r; [|apply step_updateProperty].
  eapply rtc_r; [|apply step_update].
  eapply rtc_r; [|apply step_updateProperty].
  apply loaded_reachable.
Qed.

(** X1 at work: a second document registers; its entry is another one. *)
Lemma one_entry_per_document_witness :
  file (entry [L1; L2; L3] 0 false) ≠ file (mkFileCache "G.md" 9 [mkListener 4 ["a"] "L4"] 0 false).
Proof.
  apply (one_entry_per_document (register "G.md" 4 ["a"] "L4" recent).2 0%nat 1%nat).
  - eapply rtc_r; [apply loaded_reachable|apply step_register].
  - vm_compute. apply list_elem_of_here.
  - vm_compute. apply list_elem_of_further, list_elem_of_here.
  - vm_compute. reflexivity.
  - vm_compute. reflexivity.
  - discriminate.
Defined.

(** X2 at work, on the entry of the scenario. *)
Lemma cached_entry_has_listener_witness :
  listeners (entry [L1; L2; L3] 0 true) ≠ []
  ∧ (0 ≤ cyclesSinceLastUpdate (entry [L1; L2; L3] 0 true) ≤ 2 ^ 53)%Z.
Proof.
  apply (cached_entry_has_listener dirty_in_flight "F.md" 0%nat).
  - apply dirty_in_flight_reachable.
  - vm_compute. reflexivity.
Defined.

(** X3 at work: seven ticks after the load. *)
Lemma ticks_age_entry_witness :
  getCacheForFile "F.md" (Nat.iter 7 update recent)
  = Some (0%nat, mkFileCache "F.md" 1 [L1; L2; L3] (Z.min (0 + Z.of_nat 7) (2 ^ 53)) false)
  ∧ objects (Nat.iter 7 update recent) = objects recent
  ∧ calls (Nat.iter 7 update recent) = calls recent.
Proof.
  apply (ticks_age_entry 7 "F.md" 0%nat (entry [L1; L2; L3] 0 false) recent).
  - apply (wf_one _ 0%nat); vm_compute; eauto.
  - vm_compute. reflexivity.
  - simpl. lia.
Defined.

(** X4 at work: the change made by [L1] is followed by four ticks, and the
    snapshot of the external store is discarded; after a fifth tick it is
    applied. *)
Lemma echo_window_witness :
  updateMetadataFileCacheOnFrontmatterUpdate "F.md" (Some 5%nat) (Nat.iter 4 update dirty)
  = Nat.iter 4 update dirty
  ∧ getCacheForFile "F.md"
      (updateMetadataFileCacheOnFrontmatterUpdate "F.md" (Some 5%nat) (Nat.iter 5 update dirty))
    = Some (0%nat, mkFileCache "F.md" 9 [L1; L2; L3] 0 true).
Proof.
  assert (wf dirty) as Hwf by (apply (wf_one _ 0%nat); vm_compute; eauto).
  split.
  - apply (echo_window 4 "F.md" 0%nat (entry [L1; L2; L3] 0 true) (Some 5%nat) dirty);
      [done|vm_compute; reflexivity|simpl; lia|simpl; lia].
  - apply (echo_window 5 "F.md" 0%nat (entry [L1; L2; L3] 0 true) (Some 5%nat) dirty);
      [done|vm_compute; reflexivity|simpl; lia|simpl; lia].
Defined.

(** X5 at work: the change of [L1] is written by the first tick only. *)
Lemma later_ticks_write_nothing_witness :
  pendingWrites (Nat.iter 3 update (update dirty)) = pendingWrites (update dirty).
Proof.
  apply later_ticks_write_nothing. apply (wf_one _ 0%nat); vm_compute; eauto.
Defined.

(** X6 at work, on the dirty entry of the scenario. *)
Lemma tick_one_write_per_document_witness :
  ∃ ws, pendingWrites (update dirty_in_flight) = pendingWrites dirty_in_flight ++ ws
        ∧ NoDup ws.*1
        ∧ ∀ path, path ∈ ws.*1
                  ↔ ∃ fileCache fc, getCacheForFile path dirty_in_flight = Some (fileCache, fc)
                                    ∧ changed fc = true.
Proof. apply tick_one_write_per_document, dirty_in_flight_reachable. Defined.

(** X7 at work: [L3], alone on the document, replaces the array under
    [tags] and leaves before the next tick; three ticks write nothing. *)
Lemma eviction_drops_pending_write_witness :
  let st := (updatePropertyInMetadataFileCache (JS.VRef 4) ["tags"] "F.md" (Some "L3") single).2 in
  getCacheForFile "F.md" st = Some (0%nat, entry [L3] 0 true)
  ∧ ∃ ws, pendingWrites (Nat.iter 3 update (unregister "F.md" "L3" st)) = pendingWrites st ++ ws
          ∧ ∀ w, w ∈ ws → w.1 ≠ "F.md".
Proof.
  split; [vm_compute; reflexivity|].
  apply (eviction_drops_pending_write 3 "F.md" 0%nat (entry [L3] 0 true) "L3").
  - apply (wf_one _ 0%nat); vm_compute; eauto.
  - vm_compute. reflexivity.
  - by apply Forall_singleton.
Defined.

(** X8 at work: [L1] leaves, [L2] and [L3] stay. *)
Lemma unregister_removes_id_witness :
  getCacheForFile "F.md" (unregister "F.md" "L1" recent)
  = Some (0%nat, entry [L2; L3] 0 false).
Proof.
  apply (unregister_removes_id "F.md" 0%nat (entry [L1; L2; L3] 0 false) "L1" recent).
  vm_compute. reflexivity.
Defined.

(** X9 at work: nobody is registered under [L9]. *)
Lemma unregister_unknown_id_witness : unregister "F.md" "L9" recent = recent.
Proof.
  apply (unregister_unknown_id "F.md" 0%nat (entry [L1; L2; L3] 0 false)).
  - vm_compute. reflexivity.
  - discriminate.
  - repeat (apply Forall_cons; split; [discriminate|]). apply Forall_nil_2.
Defined.

(** X10 at work: [L9] comes and goes. *)
Lemma register_unregister_witness :
  unregister "F.md" "L9" (register "F.md" 7 ["a"] "L9" recent).2 = recent.
Proof.
  apply (register_unregister "F.md" 0%nat (entry [L1; L2; L3] 0 false)).
  - vm_compute. reflexivity.
  - discriminate.
  - repeat (apply Forall_cons; split; [discriminate|]). apply Forall_nil_2.
Defined.

(** X11 at work: [L1] replaces the whole data by the snapshot at 5, and
    [L2] and [L3] are told; so is everybody when the empty id is passed. *)
Lemma replace_all_witness :
  (let st' := updateMetadataFileCache 5 "F.md" (Some "L1") recent in
   getCacheForFile "F.md" st' = Some (0%nat, mkFileCache "F.md" 5 [L1; L2; L3] 0 false)
   ∧ calls st' = calls recent ++ [(2%nat, JS.VNum 9); (3%nat, JS.VUndef)])
  ∧ calls (updateMetadataFileCache 5 "F.md" (Some "") recent)
    = calls recent ++ [(1%nat, JS.VNum 9); (2%nat, JS.VNum 9); (3%nat, JS.VUndef)].
Proof.
  split.
  - destruct (replace_all 5%nat "F.md" 0%nat (entry [L1; L2; L3] 0 false) (Some "L1") recent)
      as (Hentry & _ & _ & Hcalls & _ & Hothers); [vm_compute; reflexivity|].
    cbv zeta. split; [exact Hentry|].
    rewrite Hcalls, (Hothers "L1" eq_refl) by discriminate. vm_compute. reflexivity.
  - destruct (replace_all 5%nat "F.md" 0%nat (entry [L1; L2; L3] 0 false) (Some "") recent)
      as (_ & _ & _ & Hcalls & Hall & _); [vm_compute; reflexivity|].
    rewrite Hcalls, Hall by (by right). vm_compute. reflexivity.
Defined.

(** X12 at work: the three listeners have registered, the read resolves
    with the data at 1. *)
Lemma read_resolved_witness :
  let st := (registerAll "F.md" [L1; L2; L3] (with_objects store constructor)).2 in
  let st' := cachedRead_resolved 0 "F.md" (Some 1%nat) st in
  entries st' = <[0%nat := mkFileCache "F.md" 1 [L1; L2; L3] 0 false]> (entries st)
  ∧ cache st' = cache st ∧ objects st' = objects st
  ∧ pendingWrites st' = pendingWrites st
  ∧ calls st'
    = calls st
      ++ map (fun l => (onCacheUpdate l,
                         traverseObjectByPath (objects st) (metadataPath l) (JS.VRef 1)))
           [L1; L2; L3].
Proof.
  apply (read_resolved 0%nat "F.md" (mkFileCache "F.md" 8 [L1; L2; L3] 0 false) 1%nat).
  vm_compute. reflexivity.
Defined.

(** X13 at work: a read of a file without frontmatter, for listeners of
    which one is bound to the empty path. *)
Lemma read_resolved_without_data_witness :
  let whole := mkListener 5 [] "L5" in
  let st := (registerAll "F.md" [L1; whole; L3] (with_objects store constructor)).2 in
  calls (cachedRead_resolved 0 "F.md" None st)
  = calls st ++ [(1%nat, JS.VUndef); (5%nat, JS.VRef 9); (3%nat, JS.VUndef)].
Proof.
  apply (read_resolved_without_data 0%nat "F.md"
           (mkFileCache "F.md" 8 [L1; mkListener 5 [] "L5"; L3] 0 false)).
  vm_compute. reflexivity.
Defined.

(** X14 at work: [L3] leaves, [L1] registers, and the read begun for the
    first entry resolves. *)
Lemma late_read_is_not_seen_witness :
  let st1 := unregister "F.md" "L3" single in
  let st2 := (register "F.md" 1 ["a"; "b"] "L1" st1).2 in
  calls (cachedRead_resolved 0 "F.md" (Some 1%nat) st2) = calls st2
  ∧ ∀ p, getCacheForFile p (cachedRead_resolved 0 "F.md" (Some 1%nat) st2)
         = getCacheForFile p st2.
Proof.
  apply (late_read_is_not_seen "F.md" 0%nat (entry [L3] 0 false) "L3" (Some 1%nat)
           1%nat ["a"; "b"] "L1" single).
  - vm_compute. reflexivity.
  - by apply Forall_singleton.
Defined.

(** X15 at work: a slider is dragged from 1 to 3. *)
Lemma burst_writes_last_value_witness :
  let rc := ValueQueue.mkRenderChild true "rating" "F.md" [] [] in
  let rc1 := ValueQueue.updateAll ([JS.VNum 1; JS.VNum 2] ++ [JS.VNum 3]) rc in
  ValueQueue.written (ValueQueue.incrementInterval rc1).2 = [] ++ [("rating", JS.VNum 3, "F.md")]
  ∧ ValueQueue.valueQueue
      (ValueQueue.incrementInterval_resumed true (ValueQueue.incrementInterval rc1).2) = []
  ∧ ValueQueue.incrementInterval
      (ValueQueue.incrementInterval_resumed true (ValueQueue.incrementInterval rc1).2)
    = (false, ValueQueue.incrementInterval_resumed true (ValueQueue.incrementInterval rc1).2).
Proof.
  apply (burst_writes_last_value [JS.VNum 1; JS.VNum 2] (JS.VNum 3)
           (ValueQueue.mkRenderChild true "rating" "F.md" [] [])).
  reflexivity.
Defined.


(** X17 at work: three turns of the interval while the write of 3 hangs. *)
Lemma unfulfilled_write_is_repeated_witness :
  let rc := ValueQueue.mkRenderChild true "rating" "F.md" [JS.VNum 3] [] in
  let turn r :=
    ValueQueue.incrementInterval_resumed false (ValueQueue.incrementInterval r).2 in
  ValueQueue.written (Nat.iter 3 turn rc) = [] ++ replicate 3 ("rating", JS.VNum 3, "F.md")
  ∧ ValueQueue.valueQueue (Nat.iter 3 turn rc) = [] ++ [JS.VNum 3].
Proof.
  apply (unfulfilled_write_is_repeated 3 [] (JS.VNum 3)
           (ValueQueue.mkRenderChild true "rating" "F.md" [JS.VNum 3] [])).
  reflexivity.
Defined.

(** X18 at work: a field without a bind target. *)
Lemma unbound_field_never_writes_witness :
  let rc := ValueQueue.mkRenderChild false "" "" [] [] in
  ValueQueue.incrementInterval (ValueQueue.updateAll [JS.VNum 1; JS.VNum 2] rc) = (false, rc).
Proof.
  apply (unbound_field_never_writes [JS.VNum 1; JS.VNum 2]
           (ValueQueue.mkRenderChild false "" "" [] [])); reflexivity.
Defined.

(** X19 at work: the target [other#rating], in a vault where the name
    [other] resolves to one file. *)
Lemma parseBindTarget_success_witness :
  let files name := if bool_decide (name = "other") then ["notes/other.md"] else [] in
  ∃ fileName fieldName f,
    BindTarget.mkTarget (Some "notes/other.md") (Some "rating")
    = BindTarget.mkTarget (Some f) (Some fieldName)
    ∧ files fileName = [f]
    ∧ (∀ message, BindTarget.Valid ≠ BindTarget.ThrowsError message)
    ∧ ((BindTarget.occurrences "#" "other#rating" = 0%nat
        ∧ fileName = "daily.md" ∧ fieldName = "other#rating")
       ∨ (BindTarget.occurrences "#" "other#rating" = 1%nat
          ∧ "other#rating" = String.append fileName (String "#" fieldName))).
Proof.
  apply (parseBindTarget_success (fun _ => BindTarget.Valid)
           (fun name => if bool_decide (name = "other") then ["notes/other.md"] else [])
           "other#rating" "daily.md" (BindTarget.mkTarget None None)).
  vm_compute. reflexivity.
Defined.

(** X20 at work: two [#]. *)
Lemma parseBindTarget_too_many_hashes_witness :
  BindTarget.parseBindTarget (fun _ => BindTarget.Valid) (fun _ => ["notes/other.md"])
    (Some "a#b#c") "daily.md" (BindTarget.mkTarget None None)
  = (Some BindTarget.TooManyHashes, BindTarget.mkTarget None None).
Proof. apply parseBindTarget_too_many_hashes. vm_compute. lia. Defined.

(** X21 at work: the name resolves to no file. *)
Lemma parseBindTarget_error_witness :
  BindTarget.bindTargetFile (BindTarget.mkTarget None (Some "rating")) = None
  ∧ is_Some (BindTarget.bindTargetMetadataField (BindTarget.mkTarget None (Some "rating"))).
Proof.
  apply (parseBindTarget_error (fun _ => BindTarget.Valid) (fun _ => [])
           (Some "other#rating") "daily.md" (BindTarget.mkTarget None None)
           BindTarget.FileNotFound).
  vm_compute. reflexivity.
Defined.

(** X22 at work: what is done for [G.md] does not show on [F.md]. *)
Lemma other_documents_untouched_witness :
  getCacheForFile "F.md" (register "G.md" 4 ["a"] "L4" recent).2 = getCacheForFile "F.md" recent
  ∧ getCacheForFile "F.md" (unregister "G.md" "L4" recent) = getCacheForFile "F.md" recent
  ∧ getCacheForFile "F.md"
      (updatePropertyInMetadataFileCache (JS.VNum 2) ["a"] "G.md" None recent).2
    = getCacheForFile "F.md" recent
  ∧ getCacheForFile "F.md" (updateMetadataFileCache 5 "G.md" None recent)
    = getCacheForFile "F.md" recent
  ∧ getCacheForFile "F.md" (updateMetadataFileCacheOnFrontmatterUpdate "G.md" (Some 5%nat) recent)
    = getCacheForFile "F.md" recent.
Proof. apply other_documents_untouched. discriminate. Defined.
